(** * Sudoku as a binary linear model: the modelling layer of [main.py]

    A shallow embedding of [solve_sudoku] (model construction, status
    check, extraction), of [validate_sudoku], of [print_sudoku] and of the
    main block, together with the properties of the variable numbering,
    of the constraint families, of the extraction loop, of the validator
    and of the printed text.

    Python integers are [Z]; the values returned by the solver are
    rationals ([Q]): every finite double is one, and comparing with [0.5]
    is exact. A grid is a list of rows. The HiGHS object [h] is a record
    threaded through the calls that mutate it; a failing subscript
    ([IndexError]) is an explicit result. *)

From Stdlib Require Import Ascii String DecimalString.
From Stdlib Require Import ZArith List Bool Lia Permutation QArith Qabs Lqa.
Import ListNotations.
Local Open Scope Z_scope.

(** ** Python ranges and sequences *)

(** [range(lo, hi)]. *)
Definition range2 (lo hi : Z) : list Z :=
  map (fun i => lo + Z.of_nat i) (seq 0 (Z.to_nat (hi - lo))).

(** [range(hi)]. *)
Definition range (hi : Z) : list Z := range2 0 hi.

(** [range(lo, hi, step)] for a positive step. *)
Definition range3 (lo hi step : Z) : list Z :=
  map (fun i => lo + step * Z.of_nat i)
      (seq 0 (Z.to_nat ((hi - lo + step - 1) / step))).

(** [sum(l)]: Python adds from the left, starting at 0. *)
Definition sum (l : list Z) : Z := fold_left Z.add l 0.

(** [len(set(l))]: the number of distinct elements. *)
Definition len_set (l : list Z) : Z := Z.of_nat (length (nodup Z.eq_dec l)).

(** Outcome of a computation that may raise [IndexError]. *)
Inductive result (A : Type) : Type :=
| Ok (a : A)
| IndexError.
Arguments Ok {A} a.
Arguments IndexError {A}.

(** [s[i]] on a Python sequence: a negative index counts from the end,
    anything outside [-len, len) raises. *)
Definition getitem {A : Type} (s : list A) (i : Z) : result A :=
  let len := Z.of_nat (length s) in
  let j := if i <? 0 then i + len else i in
  if (0 <=? j) && (j <? len) then
    match nth_error s (Z.to_nat j) with
    | Some a => Ok a
    | None => IndexError
    end
  else IndexError.

(** ** Grids *)

Definition grid : Type := list (list Z).

(** [g[r][c]] for indices taken from [range(9)]. On a 9x9 grid every such
    subscript is defined; the default is never reached there. *)
Definition cell (g : grid) (r c : Z) : Z :=
  nth (Z.to_nat c) (nth (Z.to_nat r) g []) 0.

Fixpoint update {A : Type} (l : list A) (k : nat) (a : A) : list A :=
  match l, k with
  | [], _ => []
  | _ :: t, O => a :: t
  | h :: t, S k' => h :: update t k' a
  end.

(** [g[r][c] = v]. *)
Definition set_cell (g : grid) (r c v : Z) : grid :=
  update g (Z.to_nat r) (update (nth (Z.to_nat r) g []) (Z.to_nat c) v).

(** A 9x9 grid. *)
Definition grid9 (g : grid) : Prop :=
  length g = 9%nat /\ Forall (fun row => length row = 9%nat) g.

(** Every entry satisfies [P]. *)
Definition entries (P : Z -> Prop) (g : grid) : Prop :=
  Forall (Forall P) g.

(** ** The constants of [solve_sudoku] *)

Definition n : Z := 9.
Definition block : Z := 3.
Definition values : list Z := range2 1 (n + 1).
Definition rows : list Z := range n.
Definition cols : list Z := range n.
Definition num_vars : Z := n * n * n.

(** Map (r, c, v) to the flat index. *)
Definition var_index (r c v : Z) : Z := r * n * n + c * n + (v - 1).

(** The triple a flat index stands for. *)
Definition var_coords (i : Z) : Z * Z * Z :=
  (i / (n * n), (i mod (n * n)) / n, i mod n + 1).

(** ** The HiGHS model *)

(** A row of the model: the sum of the listed columns equals [c_rhs]. *)
Record constraint : Type := Constr { c_cols : list Z; c_rhs : Z }.

(** What [h] holds: the number of columns and the rows added so far. *)
Record Highs : Type := Model { num_col : Z; constrs : list constraint }.

Definition new_Highs : Highs := Model 0 [].

(** Computations on [h] that may raise. *)
Definition M (A : Type) : Type := Highs -> result (A * Highs).

Definition ret {A : Type} (a : A) : M A := fun h => Ok (a, h).

Definition bind {A B : Type} (m : M A) (k : A -> M B) : M B :=
  fun h => match m h with
           | Ok (a, h') => k a h'
           | IndexError => IndexError
           end.

Definition lift {A : Type} (x : result A) : M A :=
  fun h => match x with
           | Ok a => Ok (a, h)
           | IndexError => IndexError
           end.

Notation "x <- m ;; k" := (bind m (fun x => k))
  (at level 61, m at next level, right associativity).
Notation "m ;;; k" := (bind m (fun _ => k))
  (at level 61, right associativity).

(** [for a in l: body(a)]. *)
Fixpoint for_each {A : Type} (l : list A) (body : A -> M unit) : M unit :=
  match l with
  | [] => ret tt
  | a :: t => body a ;;; for_each t body
  end.

(** [h.addBinaries(k)]: [k] new 0/1 columns; returns their handles. *)
Definition addBinaries (k : Z) : M (list Z) :=
  fun h => Ok (range2 (num_col h) (num_col h + k),
               Model (num_col h + k) (constrs h)).

(** [h.addConstr(sum(...) == rhs)]. *)
Definition addConstr (c : constraint) : M unit :=
  fun h => Ok (tt, Model (num_col h) (constrs h ++ [c])).

(** [sum(x[i] for i in idxs)]: the columns of the linear expression, each
    with coefficient 1; any subscript may raise. *)
Fixpoint sum_vars (x : list Z) (idxs : list Z) : result (list Z) :=
  match idxs with
  | [] => Ok []
  | i :: t =>
      match getitem x i with
      | Ok xi => match sum_vars x t with
                 | Ok e => Ok (xi :: e)
                 | IndexError => IndexError
                 end
      | IndexError => IndexError
      end
  end.

(** Constraint 1: each cell has exactly one value. *)
Definition add_cell_constraints (x : list Z) : M unit :=
  for_each rows (fun r =>
    for_each cols (fun c =>
      e <- lift (sum_vars x (map (fun v => var_index r c v) values)) ;;
      addConstr (Constr e 1))).

(** Constraint 2: each value appears once per row. *)
Definition add_row_constraints (x : list Z) : M unit :=
  for_each rows (fun r =>
    for_each values (fun v =>
      e <- lift (sum_vars x (map (fun c => var_index r c v) cols)) ;;
      addConstr (Constr e 1))).

(** Constraint 3: each value appears once per column. *)
Definition add_col_constraints (x : list Z) : M unit :=
  for_each cols (fun c =>
    for_each values (fun v =>
      e <- lift (sum_vars x (map (fun r => var_index r c v) rows)) ;;
      addConstr (Constr e 1))).

(** Constraint 4: each value appears once per 3x3 block. *)
Definition add_block_constraints (x : list Z) : M unit :=
  for_each (range3 0 n block) (fun br =>
    for_each (range3 0 n block) (fun bc =>
      for_each values (fun v =>
        e <- lift (sum_vars x
               (flat_map (fun r =>
                  map (fun c => var_index r c v) (range2 bc (bc + block)))
                  (range2 br (br + block)))) ;;
        addConstr (Constr e 1)))).

(** Constraint 5: fix given numbers. *)
Definition add_given_constraints (x : list Z) (puzzle : grid) : M unit :=
  for_each rows (fun r =>
    for_each cols (fun c =>
      let val := cell puzzle r c in
      if negb (val =? 0) then
        xi <- lift (getitem x (var_index r c val)) ;;
        addConstr (Constr [xi] 1)
      else ret tt)).

(** The four puzzle-independent families, in the order of the source. *)
Definition add_uniqueness_constraints (x : list Z) : M unit :=
  add_cell_constraints x ;;;
  add_row_constraints x ;;;
  add_col_constraints x ;;;
  add_block_constraints x.

(** The model-building part of [solve_sudoku]: the handles [x] and the
    model as it is when [h.run()] is called. *)
Definition build (puzzle : grid) : result (list Z * Highs) :=
  (x <- addBinaries num_vars ;;
   add_uniqueness_constraints x ;;;
   add_given_constraints x puzzle ;;;
   ret x) new_Highs.

(** ** Solver status and extraction *)

(** [highspy.HighsModelStatus]. *)
Inductive HighsModelStatus : Type :=
| kNotset | kLoadError | kModelError | kPresolveError | kSolveError
| kPostsolveError | kModelEmpty | kOptimal | kInfeasible
| kUnboundedOrInfeasible | kUnbounded | kObjectiveBound | kObjectiveTarget
| kTimeLimit | kIterationLimit | kUnknown | kSolutionLimit | kInterrupt
| kMemoryLimit.

Definition is_optimal (s : HighsModelStatus) : bool :=
  match s with kOptimal => true | _ => false end.

(** [abs(q) > 0.5]. *)
Definition gt_half (q : Q) : bool := negb (Qle_bool (Qabs q) (1 # 2)).

(** [[[0 for _ in cols] for _ in rows]]: every row is a fresh list. *)
Definition zero_grid : grid := map (fun _ => map (fun _ => 0) cols) rows.

(** A loop that updates a local value and may raise. *)
Fixpoint fold_result {A S : Type} (body : S -> A -> result S)
    (l : list A) (s : S) : result S :=
  match l with
  | [] => Ok s
  | a :: t => match body s a with
              | Ok s' => fold_result body t s'
              | IndexError => IndexError
              end
  end.

(** The extraction loops of [solve_sudoku]; [val j] is [h.val] of the
    column with handle [j]. There is no [break]: every [v] is visited. *)
Definition extract (x : list Z) (val : Z -> Q) : result grid :=
  fold_result (fun solution r =>
    fold_result (fun solution c =>
      fold_result (fun solution v =>
        let idx := var_index r c v in
        match getitem x idx with
        | Ok xi =>
            if gt_half (val xi) then Ok (set_cell solution r c v)
            else Ok solution
        | IndexError => IndexError
        end) values solution) cols solution) rows zero_grid.

(** [solve_sudoku], with the external solver as [run]: what [h.run()]
    leaves to be read by [h.getModelStatus()] and [h.val]. The inner
    option is Python's [None]. *)
Definition solve_sudoku (run : Highs -> HighsModelStatus * (Z -> Q))
    (puzzle : grid) : result (option grid) :=
  match build puzzle return result (option grid) with
  | IndexError => IndexError
  | Ok (x, h) =>
      let (status, val) := run h in
      if negb (is_optimal status) then Ok None
      else match extract x val with
           | Ok solution => Ok (Some solution)
           | IndexError => IndexError
           end
  end.

(** ** The validator *)

(** The test applied to each group: [len(set(l)) != n or sum(l) != 45]. *)
Definition bad_group (l : list Z) : bool :=
  negb (len_set l =? n) || negb (sum l =? 45).

Definition row_of (puzzle : grid) (r : Z) : list Z :=
  nth (Z.to_nat r) puzzle [].

Definition col_of (puzzle : grid) (c : Z) : list Z :=
  map (fun r => cell puzzle r c) (range n).

Definition block_of (puzzle : grid) (br bc : Z) : list Z :=
  flat_map (fun r => map (fun c => cell puzzle r c) (range2 bc (bc + 3)))
           (range2 br (br + 3)).

(** [validate_sudoku]: each loop returns [False] at the first bad group. *)
Definition validate_sudoku (puzzle : grid) : bool :=
  if existsb (fun r => bad_group (row_of puzzle r)) (range n) then false
  else if existsb (fun c => bad_group (col_of puzzle c)) (range n) then false
  else if existsb (fun br =>
            existsb (fun bc => bad_group (block_of puzzle br bc))
                    (range3 0 n 3))
            (range3 0 n 3) then false
  else true.

(** ** Notions used in the statements *)

Definition one_to_nine : list Z := [1; 2; 3; 4; 5; 6; 7; 8; 9].

(** Every row, column and block is a permutation of 1..9. *)
Definition sudoku_solution (g : grid) : Prop :=
  (forall r, In r (range n) -> Permutation (row_of g r) one_to_nine) /\
  (forall c, In c (range n) -> Permutation (col_of g c) one_to_nine) /\
  (forall br bc, In br (range3 0 n 3) -> In bc (range3 0 n 3) ->
     Permutation (block_of g br bc) one_to_nine).

(** The value of the linear expression of a row under an assignment. *)
Definition lin_value (val : Z -> Q) (cs : list Z) : Q :=
  fold_left Qplus (map val cs) 0%Q.

Definition satisfies (val : Z -> Q) (c : constraint) : Prop :=
  (lin_value val (c_cols c) == inject_Z (c_rhs c))%Q.

(** A 0/1 point: every one of the 729 variables is 0 or 1. *)
Definition binary_point (val : Z -> Q) : Prop :=
  forall i, 0 <= i < num_vars -> (val i == 0)%Q \/ (val i == 1)%Q.

(** The assignment read off a grid: variable [idx(r,c,v)] is 1 when
    [g[r][c] == v] and 0 otherwise. *)
Definition assignment_of (g : grid) (i : Z) : Q :=
  let '(r, c, v) := var_coords i in
  if cell g r c =? v then 1%Q else 0%Q.

(** The number of non-zero cells of a puzzle. *)
Definition count_givens (puzzle : grid) : nat :=
  length (filter (fun z => negb (z =? 0)) (concat puzzle)).

(** ** The demonstration puzzle of [main.py] and its solution *)

Definition example_puzzle : grid :=
  [ [5;3;0; 0;7;0; 0;0;0];
    [6;0;0; 1;9;5; 0;0;0];
    [0;9;8; 0;0;0; 0;6;0];
    [8;0;0; 0;6;0; 0;0;3];
    [4;0;0; 8;0;3; 0;0;1];
    [7;0;0; 0;2;0; 0;0;6];
    [0;6;0; 0;0;0; 2;8;0];
    [0;0;0; 4;1;9; 0;0;5];
    [0;0;0; 0;8;0; 0;7;9] ].

Definition example_solution : grid :=
  [ [5;3;4; 6;7;8; 9;1;2];
    [6;7;2; 1;9;5; 3;4;8];
    [1;9;8; 3;4;2; 5;6;7];
    [8;5;9; 7;6;1; 4;2;3];
    [4;2;6; 8;5;3; 7;9;1];
    [7;1;3; 9;2;4; 8;5;6];
    [9;6;1; 5;3;7; 2;8;4];
    [2;8;7; 4;1;9; 6;3;5];
    [3;4;5; 2;8;6; 1;7;9] ].

(** The solution with every 8 replaced by 0 and every 9 by 17. *)
Definition disguised_grid : grid :=
  map (map (fun z => if z =? 8 then 0 else if z =? 9 then 17 else z))
      example_solution.

(** A blank puzzle except for a 10 in the last cell. *)
Definition puzzle_with_ten : grid :=
  repeat (repeat 0 9) 8 ++ [repeat 0 8 ++ [10]].

(** ** Derived notions: what is emitted, what is read back *)

Definition one_sided (g : grid) : Prop :=
  entries (fun z => 1 <= z) g \/ entries (fun z => z <= 9) g.

(** The handles returned by [h.addBinaries(num_vars)] on a fresh model. *)
Definition handles : list Z := range2 0 num_vars.

Definition cell_family : list constraint :=
  flat_map (fun r =>
    map (fun c => Constr (map (fun v => var_index r c v) values) 1) cols) rows.

Definition row_family : list constraint :=
  flat_map (fun r =>
    map (fun v => Constr (map (fun c => var_index r c v) cols) 1) values) rows.

Definition col_family : list constraint :=
  flat_map (fun c =>
    map (fun v => Constr (map (fun r => var_index r c v) rows) 1) values) cols.

Definition block_cells (br bc : Z) : list (Z * Z) :=
  flat_map (fun r => map (fun c => (r, c)) (range2 bc (bc + block)))
           (range2 br (br + block)).

Definition block_family : list constraint :=
  flat_map (fun br =>
    flat_map (fun bc =>
      map (fun v =>
        Constr (map (fun rc => var_index (fst rc) (snd rc) v)
                    (block_cells br bc)) 1) values)
      (range3 0 n block)) (range3 0 n block).

Definition uniqueness_rows : list constraint :=
  cell_family ++ row_family ++ col_family ++ block_family.

(** The subscripts of [x] evaluated by the given-fixing loop. *)
Definition given_indices (puzzle : grid) : list Z :=
  flat_map (fun r =>
    flat_map (fun c =>
      let val := cell puzzle r c in
      if negb (val =? 0) then [var_index r c val] else []) cols) rows.

Definition given_rows (puzzle : grid) : list constraint :=
  map (fun i => Constr [i] 1) (given_indices puzzle).

(** A computation that only adds the rows [cs] to the model. *)
Definition appends (m : M unit) (cs : list constraint) : Prop :=
  forall h, m h = Ok (tt, Model (num_col h) (constrs h ++ cs)).

(** One step of the loops on the cell (r, c) and the candidate v, with
    [b i] telling whether variable [i] passes the threshold. *)
Definition write_if (b : Z -> bool) (solution : grid) (t : Z * Z * Z) : grid :=
  let '(r, c, v) := t in
  if b (var_index r c v) then set_cell solution r c v else solution.

(** The iterations of the three nested loops, in order. *)
Definition triples : list (Z * Z * Z) :=
  flat_map (fun r => flat_map (fun c => map (fun v => (r, c, v)) values) cols)
           rows.

(** What the loops leave in cell (r, c): each passing [v] overwrites the
    value written before it. *)
Definition pick (b : Z -> bool) (r c : Z) : Z :=
  fold_left (fun acc v => if b (var_index r c v) then v else acc) values 0.

(** The same, read off the flat sequence of iterations. *)
Definition trace (b : Z -> bool) (r' c' : Z) (ts : list (Z * Z * Z))
    (start : Z) : Z :=
  fold_left (fun acc t =>
    let '(r, c, v) := t in
    if (r =? r') && (c =? c') && b (var_index r c v) then v else acc)
    ts start.

(** Every listed variable is 0 or 1. *)
Definition binary_on (val : Z -> Q) (cs : list Z) : Prop :=
  Forall (fun i => (val i == 0)%Q \/ (val i == 1)%Q) cs.

(** The returned values are within 1/2 of the point [a]. *)
Definition near (val a : Z -> Q) : Prop :=
  forall i, 0 <= i < num_vars -> (Qabs (val i - a i) < 1 # 2)%Q.

(** Exactly one candidate of the cell passes the threshold. *)
Definition one_passes (val : Z -> Q) (r c : Z) : Prop :=
  exists v, 1 <= v <= 9 /\ gt_half (val (var_index r c v)) = true /\
    forall v', 1 <= v' <= 9 -> gt_half (val (var_index r c v')) = true ->
      v' = v.

(** A row that asks for exactly one of nine variables. *)
Definition exactly_one_of_nine (c : constraint) : Prop :=
  length (c_cols c) = 9%nat /\ c_rhs c = 1.

(** A row that fixes one variable to 1. *)
Definition fixes_one (c : constraint) : Prop :=
  length (c_cols c) = 1%nat /\ c_rhs c = 1.

(** A computation that, when it does not raise, only adds [k] rows, each
    fixing one variable. *)
Definition emits (m : M unit) (k : nat) : Prop :=
  forall h u h', m h = Ok (u, h') ->
    num_col h' = num_col h /\
    exists cs, constrs h' = constrs h ++ cs /\ length cs = k /\
               Forall fixes_one cs.

(** Values that pass the threshold for v = 1 and v = 2 in cell (0, 0) and
    nowhere else. *)
Definition two_hot (i : Z) : Q := if (i =? 0) || (i =? 1) then 1%Q else 0%Q.

(** Checking a model row by computation. *)
Definition satisfiesb (val : Z -> Q) (c : constraint) : bool :=
  Qeq_bool (lin_value val (c_cols c)) (inject_Z (c_rhs c)).

(** A point near a 0/1 point: 0.05 for 0 and 0.95 for 1. *)
Definition noisy (a : Z -> Q) (i : Z) : Q := (a i * (9 # 10) + (1 # 20))%Q.

(** ** Notions used for the outcome of a solve *)

(** A subscript that [x], of length 729, does not accept. *)
Definition bad_subscript (i : Z) : Prop := i < - num_vars \/ num_vars <= i.

(** A computation that raises whatever the model. *)
Definition raises (m : M unit) : Prop := forall h, m h = IndexError.

(** A computation that never raises. *)
Definition completes (m : M unit) : Prop :=
  forall h, exists h', m h = Ok (tt, h').

(** Two cells that share a row, a column or a 3x3 block. *)
Definition same_group (r1 c1 r2 c2 : Z) : Prop :=
  r1 = r2 \/ c1 = c2 \/ (r1 / 3 = r2 / 3 /\ c1 / 3 = c2 / 3).

(** The columns of all rows of a family, one after the other. *)
Definition family_cols (fam : list constraint) : list Z :=
  flat_map c_cols fam.

(** A blank puzzle except for two 5s in the first row. *)
Definition puzzle_with_clash : grid :=
  (5 :: 5 :: repeat 0 7) :: repeat (repeat 0 9) 8.

(** ** Printing *)

(** [str(z)], also what an f-string writes for an integer. *)
Definition str (z : Z) : string := NilZero.string_of_int (Z.to_int z).

Definition newline : string := String (ascii_of_nat 10) EmptyString.

(** [s * k]. *)
Definition str_mul (s : string) (k : Z) : string :=
  String.concat EmptyString (repeat s (Z.to_nat k)).

(** [f"{val if val != 0 else '.'} "]. *)
Definition cell_text (val : Z) : string :=
  append (if negb (val =? 0) then str val else "."%string) " "%string.

(** The text of one row, as the inner loop of [print_sudoku] builds it
    from the values [f c] of its cells. *)
Definition row_line (f : Z -> Z) : string :=
  fold_left (fun row c =>
    let val := f c in
    let row := append row (cell_text val) in
    if ((c + 1) mod 3 =? 0) && (c <? 8) then append row "| "%string
    else row) (range 9) EmptyString.

Definition row_text (puzzle : grid) (r : Z) : string :=
  row_line (fun c => cell puzzle r c).

(** [print_sudoku]: the texts handed to [print], one per call. *)
Definition print_sudoku (puzzle : grid) (title : string) : list string :=
  [append newline (append title (append ":"%string newline))] ++
  flat_map (fun r =>
    row_text puzzle r ::
    (if ((r + 1) mod 3 =? 0) && (r <? 8) then [str_mul "-"%string 21]
     else [])) (range 9) ++
  [EmptyString].

(** The character shown for a cell holding 0..9. *)
Definition glyph (val : Z) : ascii :=
  if val =? 0 then "."%char else ascii_of_nat (48 + Z.to_nat val).

(** Reading a printed grid back: the cell characters of a row sit at fixed
    offsets when every cell takes one character. *)
Definition read_glyph (ch : ascii) : Z :=
  if Ascii.eqb ch "."%char then 0 else Z.of_nat (nat_of_ascii ch) - 48.

Definition read_row (s : string) : list Z :=
  map (fun k => match String.get k s with
                | Some ch => read_glyph ch
                | None => 0
                end) [0; 2; 4; 8; 10; 12; 16; 18; 20]%nat.

Definition read_grid (out : list string) : grid :=
  map (fun k => read_row (nth k out EmptyString))
      [1; 2; 3; 5; 6; 7; 9; 10; 11]%nat.

(** ** The main block *)

(** What [solve_sudoku] prints: one line when the status is not optimal.
    [show] is [str] of a status, which the library defines. *)
Definition solve_sudoku_stdout
    (run : Highs -> HighsModelStatus * (Z -> Q))
    (show : HighsModelStatus -> string) (puzzle : grid) : list string :=
  match build puzzle return list string with
  | IndexError => []
  | Ok (x, h) =>
      let (status, val) := run h in
      if negb (is_optimal status) then
        [append "No solution found. Solver status: "%string (show status)]
      else []
  end.

Definition valid_message : string := "✓ Solution is valid!"%string.
Definition invalid_message : string := "✗ Solution is invalid!"%string.
Definition no_solution_message : string :=
  "No solution exists for this puzzle."%string.

(** The main block: everything printed, in order. [if solution:] is false
    for [None] and for an empty list. *)
Definition main (run : Highs -> HighsModelStatus * (Z -> Q))
    (show : HighsModelStatus -> string) : result (list string) :=
  let puzzle := example_puzzle in
  let before :=
    print_sudoku puzzle "Original Puzzle"%string ++
    solve_sudoku_stdout run show puzzle in
  match solve_sudoku run puzzle return result (list string) with
  | IndexError => IndexError
  | Ok None => Ok (before ++ [no_solution_message])
  | Ok (Some solution) =>
      if negb (Nat.eqb (length solution) 0) then
        Ok (before ++ print_sudoku solution "Solved Sudoku"%string ++
            [if validate_sudoku solution then valid_message
             else invalid_message])
      else Ok (before ++ [no_solution_message])
  end.

(** The model built for the demonstration puzzle. *)
Definition example_model : Highs :=
  Model num_vars (uniqueness_rows ++ given_rows example_puzzle).

(** ** The solver as an oracle *)

(** The solver is sound on a model: an optimal status comes with values
    within 1/2 of a 0/1 point that satisfies every row. *)
Definition sound_on (run : Highs -> HighsModelStatus * (Z -> Q))
    (h : Highs) : Prop :=
  fst (run h) = kOptimal ->
  exists a, binary_point a /\ Forall (satisfies a) (constrs h) /\
            near (snd (run h)) a.

(** The solver is complete on a model: it reports optimal whenever some
    0/1 point satisfies every row. *)
Definition complete_on (run : Highs -> HighsModelStatus * (Z -> Q))
    (h : Highs) : Prop :=
  (exists a, binary_point a /\ Forall (satisfies a) (constrs h)) ->
  fst (run h) = kOptimal.

(** [g] completes the puzzle: it is a solved 9x9 grid that keeps every
    given. *)
Definition completion (puzzle g : grid) : Prop :=
  grid9 g /\ sudoku_solution g /\
  forall r c, 0 <= r < 9 -> 0 <= c < 9 -> cell puzzle r c <> 0 ->
    cell g r c = cell puzzle r c.

(** Every group has nine distinct entries of sum 45. *)
Definition groups_checked (g : grid) : Prop :=
  (forall r, In r (range n) -> NoDup (row_of g r) /\ sum (row_of g r) = 45) /\
  (forall c, In c (range n) -> NoDup (col_of g c) /\ sum (col_of g c) = 45) /\
  (forall br bc, In br (range3 0 n 3) -> In bc (range3 0 n 3) ->
     NoDup (block_of g br bc) /\ sum (block_of g br bc) = 45).

(** ** The variable numbering *)

Ltac unfold_index := unfold var_index, var_coords, num_vars, n in *.

Lemma var_index_range r c v :
  0 <= r < 9 -> 0 <= c < 9 -> 1 <= v <= 9 ->
  0 <= var_index r c v < 729.
Proof. unfold_index. lia. Qed.

Lemma var_index_inj r c v r' c' v' :
  0 <= r < 9 -> 0 <= c < 9 -> 1 <= v <= 9 ->
  0 <= r' < 9 -> 0 <= c' < 9 -> 1 <= v' <= 9 ->
  var_index r c v = var_index r' c' v' ->
  r = r' /\ c = c' /\ v = v'.
Proof. unfold_index. lia. Qed.

Lemma var_coords_index r c v :
  0 <= r < 9 -> 0 <= c < 9 -> 1 <= v <= 9 ->
  var_coords (var_index r c v) = (r, c, v).
Proof.
  intros Hr Hc Hv. unfold_index. change (9 * 9) with 81.
  f_equal; [f_equal|]; Z.div_mod_to_equations; lia.
Qed.

Lemma var_index_coords i :
  0 <= i < 729 ->
  let '(r, c, v) := var_coords i in
  0 <= r < 9 /\ 0 <= c < 9 /\ 1 <= v <= 9 /\ var_index r c v = i.
Proof.
  intros Hi. unfold_index. change (9 * 9) with 81.
  Z.div_mod_to_equations. lia.
Qed.

Example var_index_first : var_index 0 0 1 = 0. Proof. reflexivity. Qed.
Example var_index_last : var_index 8 8 9 = 728. Proof. reflexivity. Qed.
Example var_coords_100 : var_coords 100 = (1, 2, 2). Proof. reflexivity. Qed.
Example validate_example : validate_sudoku example_solution = true.
Proof. reflexivity. Qed.
Example validate_puzzle : validate_sudoku example_puzzle = false.
Proof. reflexivity. Qed.

(** ** Ranges *)

Lemma in_range2 lo hi z : In z (range2 lo hi) <-> lo <= z < hi.
Proof.
  unfold range2. rewrite in_map_iff. split.
  - intros (i & <- & Hi). apply in_seq in Hi. lia.
  - intros Hz. exists (Z.to_nat (z - lo)). split; [lia|].
    apply in_seq. lia.
Qed.

Lemma in_range hi z : In z (range hi) <-> 0 <= z < hi.
Proof. apply in_range2. Qed.

Lemma in_rows r : In r rows <-> 0 <= r < 9.
Proof. apply in_range. Qed.

Lemma in_cols c : In c cols <-> 0 <= c < 9.
Proof. apply in_range. Qed.

Lemma in_values v : In v values <-> 1 <= v <= 9.
Proof. unfold values. rewrite in_range2. unfold n. lia. Qed.

Lemma in_origins b : In b (range3 0 n 3) <-> b = 0 \/ b = 3 \/ b = 6.
Proof. change (range3 0 n 3) with [0; 3; 6]. simpl. intuition lia. Qed.

Lemma in_one_to_nine v : In v one_to_nine <-> 1 <= v <= 9.
Proof. unfold one_to_nine. simpl. intuition lia. Qed.

Lemma NoDup_one_to_nine : NoDup one_to_nine.
Proof.
  unfold one_to_nine.
  repeat (constructor; [simpl; intuition discriminate|]). constructor.
Qed.

Lemma NoDup_range2 lo hi : NoDup (range2 lo hi).
Proof.
  unfold range2. apply Finite.Injective_map_NoDup; [|apply seq_NoDup].
  intros a b Hab. lia.
Qed.

Lemma length_range2 lo hi : length (range2 lo hi) = Z.to_nat (hi - lo).
Proof. unfold range2. now rewrite length_map, length_seq. Qed.

(** ** Sums and distinct elements *)

Lemma fold_add_shift l a : fold_left Z.add l a = a + fold_left Z.add l 0.
Proof.
  revert a. induction l as [|b l IH]; intros a; simpl; [lia|].
  rewrite (IH (a + b)), (IH b). lia.
Qed.

Lemma sum_cons a l : sum (a :: l) = a + sum l.
Proof. unfold sum. simpl. apply fold_add_shift. Qed.

Lemma sum_app l1 l2 : sum (l1 ++ l2) = sum l1 + sum l2.
Proof.
  induction l1 as [|a l1 IH]; [reflexivity|].
  simpl app. rewrite !sum_cons, IH. lia.
Qed.

Lemma sum_perm l l' : Permutation l l' -> sum l = sum l'.
Proof.
  induction 1 as [|a l l' _ IH|a b l|l l' l'' _ IH1 _ IH2];
    rewrite ?sum_cons; lia.
Qed.

Lemma length_nodup_le (l : list Z) :
  (length (nodup Z.eq_dec l) <= length l)%nat.
Proof.
  induction l as [|a l IH]; simpl; [lia|].
  destruct (in_dec Z.eq_dec a l); simpl; lia.
Qed.

Lemma length_nodup_NoDup (l : list Z) :
  length (nodup Z.eq_dec l) = length l <-> NoDup l.
Proof.
  split.
  - induction l as [|a l IH]; simpl; [constructor|].
    destruct (in_dec Z.eq_dec a l) as [Hin|Hin]; simpl; intros Hl.
    + pose proof (length_nodup_le l). lia.
    + constructor; [exact Hin|apply IH; lia].
  - intros Hnd. now rewrite nodup_fixed_point.
Qed.

Lemma bad_group_false l :
  length l = 9%nat ->
  bad_group l = false <-> NoDup l /\ sum l = 45.
Proof.
  intros Hl. unfold bad_group, len_set, n.
  rewrite orb_false_iff, !negb_false_iff, !Z.eqb_eq.
  rewrite <- length_nodup_NoDup, Hl. intuition lia.
Qed.

(** [k] distinct integers, all at least 1, sum to at least [k(k+1)/2], and
    when they reach that sum none of them exceeds [k]. *)
Lemma distinct_positive_sum (k : nat) (l : list Z) :
  length l = k -> NoDup l -> Forall (fun z => 1 <= z) l ->
  Z.of_nat k * (Z.of_nat k + 1) <= 2 * sum l /\
  (2 * sum l = Z.of_nat k * (Z.of_nat k + 1) ->
   Forall (fun z => z <= Z.of_nat k) l).
Proof.
  revert l. induction k as [|k IH]; intros l Hl Hnd Hpos.
  - destruct l; [|discriminate]. split; [reflexivity|constructor].
  - destruct (Forall_Exists_dec (fun z => z <= Z.of_nat k)
                (fun z => Z_le_dec z (Z.of_nat k)) l) as [Hall|Hex].
    + exfalso.
      assert (Hincl : incl l (range2 1 (Z.of_nat k + 1))).
      { intros z Hz. apply in_range2.
        rewrite Forall_forall in Hall, Hpos.
        specialize (Hall z Hz). specialize (Hpos z Hz). lia. }
      apply NoDup_incl_length in Hincl; [|exact Hnd].
      rewrite length_range2 in Hincl. lia.
    + apply Exists_exists in Hex. destruct Hex as (x & Hx & Hbig).
      destruct (in_split x l Hx) as (l1 & l2 & ->).
      assert (Hsum : sum (l1 ++ x :: l2) = x + sum (l1 ++ l2)).
      { rewrite !sum_app, sum_cons. lia. }
      assert (Hl' : length (l1 ++ l2) = k).
      { rewrite length_app in *. simpl in Hl. lia. }
      assert (Hpos' : Forall (fun z => 1 <= z) (l1 ++ l2)).
      { rewrite Forall_app in *. destruct Hpos as [H1 H2].
        inversion H2; subst. now split. }
      destruct (IH (l1 ++ l2) Hl' (NoDup_remove_1 _ _ _ Hnd) Hpos')
        as [Hlow Htight].
      rewrite Hsum. split; [nia|].
      intros Heq.
      assert (Hxk : x = Z.of_nat (S k)) by nia.
      assert (Hrest : Forall (fun z => z <= Z.of_nat k) (l1 ++ l2)).
      { apply Htight. nia. }
      rewrite Forall_app in *. destruct Hrest as [H1 H2].
      split.
      * eapply Forall_impl; [|exact H1]. intros z Hz. simpl in Hz. lia.
      * constructor; [lia|].
        eapply Forall_impl; [|exact H2]. intros z Hz. simpl in Hz. lia.
Qed.

Lemma bounded_distinct_perm l :
  length l = 9%nat -> NoDup l -> Forall (fun z => 1 <= z <= 9) l ->
  Permutation l one_to_nine.
Proof.
  intros Hl Hnd Hb.
  apply NoDup_Permutation_bis; [exact Hnd|rewrite Hl; simpl; lia|].
  intros z Hz. apply in_one_to_nine.
  rewrite Forall_forall in Hb. now apply Hb.
Qed.

Lemma sum_complement l :
  sum (map (fun z => 10 - z) l) = 10 * Z.of_nat (length l) - sum l.
Proof.
  induction l as [|a l IH]; [reflexivity|].
  cbn [map length]. rewrite !sum_cons, IH, Nat2Z.inj_succ. lia.
Qed.

(** The two tests of the validator pin a group down to 1..9 as soon as its
    entries are bounded on one side. *)
Lemma group_is_one_to_nine l :
  length l = 9%nat ->
  Forall (fun z => 1 <= z) l \/ Forall (fun z => z <= 9) l ->
  NoDup l -> sum l = 45 -> Permutation l one_to_nine.
Proof.
  intros Hl Hside Hnd Hsum.
  apply bounded_distinct_perm; [exact Hl|exact Hnd|].
  destruct Hside as [Hlow|Hup].
  - destruct (distinct_positive_sum 9 l Hl Hnd Hlow) as [_ Htight].
    specialize (Htight ltac:(rewrite Hsum; reflexivity)).
    rewrite Forall_forall in *. intros z Hz.
    specialize (Hlow z Hz). specialize (Htight z Hz).
    change (Z.of_nat 9) with 9 in Htight. lia.
  - remember (map (fun z => 10 - z) l) as l' eqn:El'.
    assert (Hl' : length l' = 9%nat) by (subst l'; now rewrite length_map).
    assert (Hnd' : NoDup l').
    { subst l'. apply Finite.Injective_map_NoDup; [|exact Hnd].
      intros a b Hab. lia. }
    assert (Hlow' : Forall (fun z => 1 <= z) l').
    { subst l'. rewrite Forall_map.
      eapply Forall_impl; [|exact Hup]. intros z Hz. simpl in Hz. lia. }
    destruct (distinct_positive_sum 9 l' Hl' Hnd' Hlow') as [_ Htight].
    assert (Hs' : sum l' = 45).
    { subst l'. rewrite sum_complement, Hl, Hsum. reflexivity. }
    specialize (Htight ltac:(rewrite Hs'; reflexivity)).
    subst l'. rewrite Forall_map in Htight.
    rewrite Forall_forall in *. intros z Hz.
    specialize (Hup z Hz). specialize (Htight z Hz).
    change (Z.of_nat 9) with 9 in Htight. lia.
Qed.

Lemma one_to_nine_group l :
  Permutation l one_to_nine ->
  length l = 9%nat /\ NoDup l /\ sum l = 45 /\ Forall (fun z => 1 <= z <= 9) l.
Proof.
  intros Hp. repeat split.
  - apply Permutation_length in Hp. exact Hp.
  - eapply Permutation_NoDup; [symmetry; exact Hp|apply NoDup_one_to_nine].
  - apply sum_perm in Hp. exact Hp.
  - apply Forall_forall. intros z Hz. apply in_one_to_nine.
    eapply Permutation_in; eassumption.
Qed.

(** ** Cells and groups of a 9x9 grid *)

Lemma row_of_in g r :
  grid9 g -> 0 <= r < 9 -> In (row_of g r) g /\ length (row_of g r) = 9%nat.
Proof.
  intros [Hlen Hrows] Hr.
  assert (Hin : In (row_of g r) g) by (apply nth_In; lia).
  split; [exact Hin|]. rewrite Forall_forall in Hrows. now apply Hrows.
Qed.

Lemma cell_in_row g r c :
  grid9 g -> 0 <= r < 9 -> 0 <= c < 9 -> In (cell g r c) (row_of g r).
Proof.
  intros Hg Hr Hc. destruct (row_of_in g r Hg Hr) as [_ Hl].
  unfold cell. fold (row_of g r). apply nth_In. lia.
Qed.

Lemma entries_row P g r :
  grid9 g -> entries P g -> 0 <= r < 9 -> Forall P (row_of g r).
Proof.
  intros Hg He Hr. unfold entries in He. rewrite Forall_forall in He.
  apply He. now apply row_of_in.
Qed.

Lemma entries_cell P g r c :
  grid9 g -> entries P g -> 0 <= r < 9 -> 0 <= c < 9 -> P (cell g r c).
Proof.
  intros Hg He Hr Hc. pose proof (entries_row P g r Hg He Hr) as Hrow.
  rewrite Forall_forall in Hrow. apply Hrow. now apply cell_in_row.
Qed.

Lemma entries_col P g c :
  grid9 g -> entries P g -> 0 <= c < 9 -> Forall P (col_of g c).
Proof.
  intros Hg He Hc. unfold col_of. rewrite Forall_map, Forall_forall.
  intros r Hr. apply in_range in Hr. unfold n in Hr.
  now apply entries_cell.
Qed.

Lemma entries_block P g br bc :
  grid9 g -> entries P g ->
  In br (range3 0 n 3) -> In bc (range3 0 n 3) ->
  Forall P (block_of g br bc).
Proof.
  intros Hg He Hbr Hbc. apply in_origins in Hbr, Hbc.
  unfold block_of. rewrite Forall_flat_map, Forall_forall.
  intros r Hr. apply in_range2 in Hr.
  rewrite Forall_map, Forall_forall. intros c Hc. apply in_range2 in Hc.
  apply entries_cell; trivial; lia.
Qed.

Lemma length_col_of g c : length (col_of g c) = 9%nat.
Proof. unfold col_of. now rewrite length_map. Qed.

Lemma length_block_of g br bc :
  In br (range3 0 n 3) -> In bc (range3 0 n 3) ->
  length (block_of g br bc) = 9%nat.
Proof.
  intros Hbr Hbc. apply in_origins in Hbr, Hbc.
  destruct Hbr as [->|[->| ->]]; destruct Hbc as [->|[->| ->]]; reflexivity.
Qed.

Lemma nth_table {A : Type} (f : Z -> A) (d : A) (k i : nat) :
  (i < k)%nat -> nth i (map f (map Z.of_nat (seq 0 k))) d = f (Z.of_nat i).
Proof.
  intros Hi. rewrite map_map.
  rewrite (nth_indep (map (fun j => f (Z.of_nat j)) (seq 0 k)) d
             ((fun j => f (Z.of_nat j)) 0%nat))
    by (rewrite length_map, length_seq; exact Hi).
  rewrite (map_nth (fun j => f (Z.of_nat j))), seq_nth by exact Hi.
  reflexivity.
Qed.

(** A 9x9 grid is the table of its cells. *)
Lemma grid9_table g :
  grid9 g -> g = map (fun r => map (fun c => cell g r c) cols) rows.
Proof.
  intros Hg. pose proof Hg as [Hlen Hrows].
  apply (nth_ext _ _ [] []).
  - now rewrite length_map.
  - intros i Hi. rewrite Hlen in Hi.
    assert (Hr : 0 <= Z.of_nat i < 9) by lia.
    destruct (row_of_in g _ Hg Hr) as [_ Hl].
    unfold row_of in Hl. rewrite Nat2Z.id in Hl.
    change rows with (map Z.of_nat (seq 0 9)).
    rewrite (nth_table (fun r => map (fun c => cell g r c) cols)) by exact Hi.
    apply (nth_ext _ _ 0 0); [now rewrite length_map|].
    intros j Hj. rewrite Hl in Hj.
    change cols with (map Z.of_nat (seq 0 9)).
    rewrite (nth_table (fun c => cell g (Z.of_nat i) c)) by exact Hj.
    unfold cell. now rewrite !Nat2Z.id.
Qed.

(** ** Properties of the validator *)

Lemma existsb_false {A : Type} (f : A -> bool) (l : list A) :
  existsb f l = false <-> forall a, In a l -> f a = false.
Proof.
  induction l as [|b l IH]; simpl.
  - split; [intros _ a []|reflexivity].
  - rewrite orb_false_iff, IH. split.
    + intros [Hb Hl] a [<-|Ha]; auto.
    + intros H. split; [apply H; now left|intros a Ha; apply H; now right].
Qed.

(** [validate_sudoku] answers [True] exactly when no group fails its test. *)
Lemma validate_sudoku_true g :
  validate_sudoku g = true <->
  (forall r, In r (range n) -> bad_group (row_of g r) = false) /\
  (forall c, In c (range n) -> bad_group (col_of g c) = false) /\
  (forall br bc, In br (range3 0 n 3) -> In bc (range3 0 n 3) ->
     bad_group (block_of g br bc) = false).
Proof.
  unfold validate_sudoku.
  destruct (existsb (fun r => bad_group (row_of g r)) (range n)) eqn:Er.
  { split; [discriminate|]. intros (H & _ & _).
    apply existsb_false in H. congruence. }
  destruct (existsb (fun c => bad_group (col_of g c)) (range n)) eqn:Ec.
  { split; [discriminate|]. intros (_ & H & _).
    apply existsb_false in H. congruence. }
  destruct (existsb _ (range3 0 n 3)) eqn:Eb.
  { split; [discriminate|]. intros (_ & _ & H). exfalso.
    apply existsb_exists in Eb. destruct Eb as (br & Hbr & Eb).
    apply existsb_exists in Eb. destruct Eb as (bc & Hbc & Eb).
    rewrite (H br bc Hbr Hbc) in Eb. discriminate. }
  split; [intros _|reflexivity].
  rewrite existsb_false in Er, Ec, Eb. repeat split; trivial.
  intros br bc Hbr Hbc. specialize (Eb br Hbr).
  rewrite existsb_false in Eb. now apply Eb.
Qed.

Lemma validate_sudoku_solution g :
  grid9 g -> one_sided g ->
  validate_sudoku g = true <-> sudoku_solution g.
Proof.
  intros Hg Hside. rewrite validate_sudoku_true. unfold sudoku_solution.
  assert (Hrow : forall r, In r (range n) ->
            bad_group (row_of g r) = false <->
            Permutation (row_of g r) one_to_nine).
  { intros r Hr. apply in_range in Hr. unfold n in Hr.
    destruct (row_of_in g r Hg Hr) as [_ Hl].
    rewrite (bad_group_false _ Hl). split.
    - intros [Hnd Hs].
      apply group_is_one_to_nine; [exact Hl| |exact Hnd|exact Hs].
      destruct Hside as [H|H]; [left|right]; now apply entries_row.
    - intros Hp. apply one_to_nine_group in Hp. tauto. }
  assert (Hcol : forall c, In c (range n) ->
            bad_group (col_of g c) = false <->
            Permutation (col_of g c) one_to_nine).
  { intros c Hc. rewrite (bad_group_false _ (length_col_of g c)).
    apply in_range in Hc. unfold n in Hc. split.
    - intros [Hnd Hs].
      apply group_is_one_to_nine; [apply length_col_of| |exact Hnd|exact Hs].
      destruct Hside as [H|H]; [left|right]; now apply entries_col.
    - intros Hp. apply one_to_nine_group in Hp. tauto. }
  assert (Hblk : forall br bc, In br (range3 0 n 3) -> In bc (range3 0 n 3) ->
            bad_group (block_of g br bc) = false <->
            Permutation (block_of g br bc) one_to_nine).
  { intros br bc Hbr Hbc.
    rewrite (bad_group_false _ (length_block_of g br bc Hbr Hbc)). split.
    - intros [Hnd Hs].
      apply group_is_one_to_nine;
        [now apply length_block_of| |exact Hnd|exact Hs].
      destruct Hside as [H|H]; [left|right]; now apply entries_block.
    - intros Hp. apply one_to_nine_group in Hp. tauto. }
  split; intros (H1 & H2 & H3); repeat split.
  - intros r Hr. now apply Hrow, H1.
  - intros c Hc. now apply Hcol, H2.
  - intros br bc Hbr Hbc. now apply Hblk, H3.
  - intros r Hr. now apply Hrow, H1.
  - intros c Hc. now apply Hcol, H2.
  - intros br bc Hbr Hbc. now apply Hblk, H3.
Qed.

(** A solution passes the validator, whatever bounds are known. *)
Lemma solution_validates g :
  grid9 g -> sudoku_solution g -> validate_sudoku g = true.
Proof.
  intros Hg (H1 & H2 & H3). apply validate_sudoku_true. repeat split.
  - intros r Hr. pose proof (H1 r Hr) as Hp.
    apply in_range in Hr. unfold n in Hr.
    destruct (row_of_in g r Hg Hr) as [_ Hl].
    apply (bad_group_false _ Hl). apply one_to_nine_group in Hp. tauto.
  - intros c Hc. apply (bad_group_false _ (length_col_of g c)).
    specialize (H2 c Hc). apply one_to_nine_group in H2. tauto.
  - intros br bc Hbr Hbc.
    apply (bad_group_false _ (length_block_of g br bc Hbr Hbc)).
    specialize (H3 br bc Hbr Hbc). apply one_to_nine_group in H3. tauto.
Qed.

(** ** What the builder emits *)

Lemma appends_ret : appends (ret tt) [].
Proof. intros [k cs]. unfold ret. simpl. now rewrite app_nil_r. Qed.

Lemma appends_for_each {A : Type} (l : list A) (body : A -> M unit)
    (emitted : A -> list constraint) :
  (forall a, In a l -> appends (body a) (emitted a)) ->
  appends (for_each l body) (flat_map emitted l).
Proof.
  induction l as [|a l IH]; intros Hbody; simpl.
  - apply appends_ret.
  - intros h. unfold bind. rewrite (Hbody a (or_introl eq_refl)).
    rewrite IH by (intros b Hb; apply Hbody; now right).
    simpl. now rewrite app_assoc.
Qed.

Lemma flat_map_singleton_map {A B : Type} (f : A -> B) (l : list A) :
  flat_map (fun a => [f a]) l = map f l.
Proof. induction l as [|a l IH]; simpl; congruence. Qed.

Lemma getitem_range2 k i : 0 <= i < k -> getitem (range2 0 k) i = Ok i.
Proof.
  intros Hi. unfold getitem. rewrite length_range2.
  replace (i <? 0) with false by (symmetry; apply Z.ltb_ge; lia).
  replace (0 <=? i) with true by (symmetry; apply Z.leb_le; lia).
  replace (i <? Z.of_nat (Z.to_nat (k - 0))) with true
    by (symmetry; apply Z.ltb_lt; lia).
  simpl andb. cbv iota. unfold range2.
  rewrite (map_nth_error _ _ _ (d := Z.to_nat i)).
  - f_equal. lia.
  - rewrite nth_error_nth' with (d := 0%nat) by (rewrite length_seq; lia).
    rewrite seq_nth by lia. reflexivity.
Qed.

Lemma getitem_handles i : 0 <= i < num_vars -> getitem handles i = Ok i.
Proof. apply getitem_range2. Qed.

Lemma given_indices_range puzzle :
  grid9 puzzle -> entries (fun z => 0 <= z <= 9) puzzle ->
  Forall (fun i => 0 <= i < num_vars) (given_indices puzzle).
Proof.
  intros Hg He. unfold given_indices.
  rewrite Forall_flat_map, Forall_forall. intros r Hr. apply in_rows in Hr.
  rewrite Forall_flat_map, Forall_forall. intros c Hc. apply in_cols in Hc.
  pose proof (entries_cell _ puzzle r c Hg He Hr Hc) as Hv. cbv beta in Hv.
  cbv zeta. destruct (cell puzzle r c =? 0) eqn:E; simpl; constructor.
  - apply Z.eqb_neq in E. apply var_index_range; lia.
  - constructor.
Qed.

Lemma add_given_appends puzzle :
  grid9 puzzle -> entries (fun z => 0 <= z <= 9) puzzle ->
  appends (add_given_constraints handles puzzle) (given_rows puzzle).
Proof.
  intros Hg He. unfold add_given_constraints, given_rows, given_indices.
  rewrite flat_map_concat_map, concat_map, map_map, <- flat_map_concat_map.
  apply appends_for_each. intros r Hr. apply in_rows in Hr.
  rewrite flat_map_concat_map, concat_map, map_map, <- flat_map_concat_map.
  apply appends_for_each. intros c Hc. apply in_cols in Hc.
  pose proof (entries_cell _ puzzle r c Hg He Hr Hc) as Hv. cbv beta in Hv.
  cbv zeta. destruct (cell puzzle r c =? 0) eqn:E; simpl.
  - apply appends_ret.
  - apply Z.eqb_neq in E. intros h. unfold bind, lift.
    rewrite getitem_handles by (apply var_index_range; lia).
    reflexivity.
Qed.

Lemma appends_seq (m1 m2 : M unit) cs1 cs2 :
  appends m1 cs1 -> appends m2 cs2 -> appends (m1 ;;; m2) (cs1 ++ cs2).
Proof.
  intros H1 H2 h. unfold bind. rewrite H1, H2. simpl. now rewrite app_assoc.
Qed.

Lemma sum_vars_handles idxs :
  Forall (fun i => 0 <= i < num_vars) idxs -> sum_vars handles idxs = Ok idxs.
Proof.
  induction 1 as [|i idxs Hi _ IH]; simpl; [reflexivity|].
  now rewrite getitem_handles, IH.
Qed.

Lemma add_exactly_one_appends idxs :
  Forall (fun i => 0 <= i < num_vars) idxs ->
  appends (e <- lift (sum_vars handles idxs) ;; addConstr (Constr e 1))
          [Constr idxs 1].
Proof.
  intros Hi h. unfold bind, lift. now rewrite sum_vars_handles.
Qed.

Ltac index_in_range :=
  repeat (rewrite ?Forall_flat_map, ?Forall_map, Forall_forall; intros ? ?);
  repeat match goal with
         | H : In _ rows |- _ => apply in_rows in H
         | H : In _ cols |- _ => apply in_cols in H
         | H : In _ values |- _ => apply in_values in H
         | H : In _ (range3 0 n block) |- _ => apply in_origins in H
         | H : In _ (range2 _ _) |- _ => apply in_range2 in H
         end;
  unfold block in *; apply var_index_range; lia.

Lemma add_cell_appends :
  appends (add_cell_constraints handles) cell_family.
Proof.
  unfold add_cell_constraints, cell_family.
  apply (appends_for_each rows _ (fun r =>
           map (fun c => Constr (map (fun v => var_index r c v) values) 1)
               cols)).
  intros r Hr. rewrite <- (flat_map_singleton_map _ cols).
  apply appends_for_each. intros c Hc.
  apply add_exactly_one_appends. index_in_range.
Qed.

Lemma add_row_appends :
  appends (add_row_constraints handles) row_family.
Proof.
  unfold add_row_constraints, row_family.
  apply (appends_for_each rows _ (fun r =>
           map (fun v => Constr (map (fun c => var_index r c v) cols) 1)
               values)).
  intros r Hr. rewrite <- (flat_map_singleton_map _ values).
  apply appends_for_each. intros v Hv.
  apply add_exactly_one_appends. index_in_range.
Qed.

Lemma add_col_appends :
  appends (add_col_constraints handles) col_family.
Proof.
  unfold add_col_constraints, col_family.
  apply (appends_for_each cols _ (fun c =>
           map (fun v => Constr (map (fun r => var_index r c v) rows) 1)
               values)).
  intros c Hc. rewrite <- (flat_map_singleton_map _ values).
  apply appends_for_each. intros v Hv.
  apply add_exactly_one_appends. index_in_range.
Qed.

Lemma block_cells_indices br bc v :
  map (fun rc => var_index (fst rc) (snd rc) v) (block_cells br bc) =
  flat_map (fun r => map (fun c => var_index r c v) (range2 bc (bc + block)))
           (range2 br (br + block)).
Proof.
  unfold block_cells.
  induction (range2 br (br + block)) as [|r l IH]; [reflexivity|].
  simpl. now rewrite map_app, map_map, IH.
Qed.

Lemma add_block_appends :
  appends (add_block_constraints handles) block_family.
Proof.
  unfold add_block_constraints, block_family.
  apply (appends_for_each (range3 0 n block) _ (fun br =>
           flat_map (fun bc =>
             map (fun v =>
               Constr (map (fun rc => var_index (fst rc) (snd rc) v)
                           (block_cells br bc)) 1) values)
             (range3 0 n block))).
  intros br Hbr.
  apply (appends_for_each (range3 0 n block) _ (fun bc =>
           map (fun v =>
             Constr (map (fun rc => var_index (fst rc) (snd rc) v)
                         (block_cells br bc)) 1) values)).
  intros bc Hbc. rewrite <- (flat_map_singleton_map _ values).
  apply appends_for_each. intros v Hv. rewrite block_cells_indices.
  apply add_exactly_one_appends. index_in_range.
Qed.

Lemma uniqueness_appends :
  appends (add_uniqueness_constraints handles) uniqueness_rows.
Proof.
  unfold add_uniqueness_constraints, uniqueness_rows.
  apply appends_seq; [apply add_cell_appends|].
  apply appends_seq; [apply add_row_appends|].
  apply appends_seq; [apply add_col_appends|apply add_block_appends].
Qed.

(** The model handed to the solver. *)
Lemma build_ok puzzle :
  grid9 puzzle -> entries (fun z => 0 <= z <= 9) puzzle ->
  build puzzle =
  Ok (handles, Model num_vars (uniqueness_rows ++ given_rows puzzle)).
Proof.
  intros Hg He. unfold build, bind at 1, addBinaries, new_Highs.
  cbn [num_col constrs]. change (range2 0 (0 + num_vars)) with handles.
  unfold bind at 1. rewrite uniqueness_appends.
  unfold bind at 1. rewrite (add_given_appends puzzle Hg He).
  reflexivity.
Qed.

(** ** The extraction loops *)

Lemma fold_result_ok {A S : Type} (body : S -> A -> result S)
    (step : S -> A -> S) (l : list A) :
  (forall s a, In a l -> body s a = Ok (step s a)) ->
  forall s, fold_result body l s = Ok (fold_left step l s).
Proof.
  induction l as [|a l IH]; intros Hbody s; simpl; [reflexivity|].
  rewrite Hbody by now left. apply IH. intros s' b Hb. apply Hbody. now right.
Qed.

Lemma fold_left_flat_map {A B S : Type} (f : S -> B -> S) (g : A -> list B)
    (l : list A) (s : S) :
  fold_left f (flat_map g l) s = fold_left (fun s a => fold_left f (g a) s) l s.
Proof.
  revert s. induction l as [|a l IH]; intros s; simpl; [reflexivity|].
  now rewrite fold_left_app, IH.
Qed.

Lemma fold_left_over_map {A B S : Type} (f : S -> B -> S) (g : A -> B)
    (l : list A) (s : S) :
  fold_left f (map g l) s = fold_left (fun s a => f s (g a)) l s.
Proof.
  revert s. induction l as [|a l IH]; intros s; simpl; [reflexivity|].
  apply IH.
Qed.

Lemma length_update {A : Type} (l : list A) k a :
  length (update l k a) = length l.
Proof.
  revert k. induction l as [|h t IH]; intros [|k]; simpl; auto.
Qed.

Lemma nth_update {A : Type} (l : list A) k a k' d :
  (k < length l)%nat ->
  nth k' (update l k a) d = if Nat.eqb k k' then a else nth k' l d.
Proof.
  revert k k'. induction l as [|h t IH]; intros k k' Hk; simpl in Hk; [lia|].
  destruct k as [|k], k' as [|k']; simpl; trivial.
  apply IH. lia.
Qed.

Lemma In_update {A : Type} (l : list A) k a x :
  In x (update l k a) -> x = a \/ In x l.
Proof.
  revert k. induction l as [|h t IH]; intros [|k]; simpl; try tauto.
  - intros [<-|H]; auto.
  - intros [<-|H]; auto. destruct (IH _ H); auto.
Qed.

Lemma set_cell_grid9 g r c v :
  grid9 g -> 0 <= r < 9 -> grid9 (set_cell g r c v).
Proof.
  intros [Hlen Hrows] Hr. unfold set_cell. split.
  - now rewrite length_update.
  - rewrite Forall_forall in *. intros row Hrow.
    apply In_update in Hrow. destruct Hrow as [->|Hrow]; [|now apply Hrows].
    rewrite length_update. apply Hrows. apply nth_In. lia.
Qed.

Lemma cell_set_cell g r c v r' c' :
  grid9 g -> 0 <= r < 9 -> 0 <= c < 9 -> 0 <= r' < 9 -> 0 <= c' < 9 ->
  cell (set_cell g r c v) r' c' =
  if (r =? r') && (c =? c') then v else cell g r' c'.
Proof.
  intros Hg Hr Hc Hr' Hc'. pose proof Hg as [Hlen Hrows].
  destruct (row_of_in g r Hg Hr) as [_ Hl]. unfold row_of in Hl.
  unfold cell, set_cell. rewrite nth_update by lia.
  destruct (Z.eqb_spec r r') as [->|Hne].
  - rewrite Nat.eqb_refl, nth_update by lia.
    destruct (Z.eqb_spec c c') as [->|Hne'].
    + now rewrite Nat.eqb_refl.
    + replace (Z.to_nat c =? Z.to_nat c')%nat with false; [reflexivity|].
      symmetry. apply Nat.eqb_neq. lia.
  - replace (Z.to_nat r =? Z.to_nat r')%nat with false; [reflexivity|].
    symmetry. apply Nat.eqb_neq. lia.
Qed.

Lemma extract_flat val :
  extract handles val =
  Ok (fold_left (write_if (fun i => gt_half (val i))) triples zero_grid).
Proof.
  unfold extract, triples.
  rewrite fold_left_flat_map.
  apply fold_result_ok. intros s r Hr.
  rewrite fold_left_flat_map.
  apply fold_result_ok. intros s' c Hc.
  rewrite fold_left_over_map.
  apply fold_result_ok. intros s'' v Hv. cbv zeta.
  apply in_rows in Hr. apply in_cols in Hc. apply in_values in Hv.
  rewrite getitem_handles by (apply var_index_range; lia).
  unfold write_if. now destruct (gt_half _).
Qed.

Lemma write_if_cells b ts :
  Forall (fun t => 0 <= fst (fst t) < 9 /\ 0 <= snd (fst t) < 9) ts ->
  forall sol, grid9 sol ->
  grid9 (fold_left (write_if b) ts sol) /\
  forall r' c', 0 <= r' < 9 -> 0 <= c' < 9 ->
    cell (fold_left (write_if b) ts sol) r' c' =
    trace b r' c' ts (cell sol r' c').
Proof.
  induction 1 as [|[[r c] v] ts [Hr Hc] _ IH]; intros sol Hsol.
  - split; [exact Hsol|reflexivity].
  - simpl in Hr, Hc. unfold trace. simpl fold_left. fold (trace b).
    destruct (b (var_index r c v)) eqn:Eb.
    + destruct (IH (set_cell sol r c v)) as [Hg Hcell].
      { now apply set_cell_grid9. }
      split; [exact Hg|]. intros r' c' Hr' Hc'.
      rewrite Hcell by assumption.
      rewrite cell_set_cell by assumption.
      fold (trace b r' c' ts). now rewrite andb_true_r.
    + destruct (IH sol Hsol) as [Hg Hcell].
      split; [exact Hg|]. intros r' c' Hr' Hc'.
      rewrite Hcell by assumption.
      fold (trace b r' c' ts). now rewrite andb_false_r.
Qed.

Lemma triples_in_range :
  Forall (fun t => 0 <= fst (fst t) < 9 /\ 0 <= snd (fst t) < 9) triples.
Proof.
  unfold triples. rewrite Forall_flat_map, Forall_forall. intros r Hr.
  rewrite Forall_flat_map, Forall_forall. intros c Hc.
  rewrite Forall_map, Forall_forall. intros v _. simpl.
  apply in_rows in Hr. apply in_cols in Hc. tauto.
Qed.

Lemma trace_triples b r c :
  0 <= r < 9 -> 0 <= c < 9 -> trace b r c triples 0 = pick b r c.
Proof.
  intros Hr Hc.
  assert (Hr' : In r [0; 1; 2; 3; 4; 5; 6; 7; 8]) by (simpl; lia).
  assert (Hc' : In c [0; 1; 2; 3; 4; 5; 6; 7; 8]) by (simpl; lia).
  clear Hr Hc. simpl in Hr', Hc'.
  repeat (destruct Hr' as [<-|Hr']; [|]); try contradiction;
    repeat (destruct Hc' as [<-|Hc']; [|]); try contradiction;
    vm_compute; reflexivity.
Qed.

Lemma cell_zero_grid r c : cell zero_grid r c = 0.
Proof.
  unfold cell. change zero_grid with (repeat (repeat 0 9%nat) 9%nat).
  destruct (nth_in_or_default (Z.to_nat r) (repeat (repeat 0 9%nat) 9%nat) [])
    as [Hin| ->].
  - apply repeat_spec in Hin. rewrite Hin.
    destruct (nth_in_or_default (Z.to_nat c) (repeat 0 9%nat) 0) as [Hin'| ->];
      [now apply repeat_spec in Hin'|reflexivity].
  - now destruct (Z.to_nat c).
Qed.

Lemma grid9_zero_grid : grid9 zero_grid.
Proof. split; [reflexivity|]. repeat constructor. Qed.

(** The grid the extraction returns: it never raises, and cell (r, c) holds
    [pick]. *)
Lemma extract_cells val :
  exists g, extract handles val = Ok g /\ grid9 g /\
    forall r c, 0 <= r < 9 -> 0 <= c < 9 ->
      cell g r c = pick (fun i => gt_half (val i)) r c.
Proof.
  eexists. split; [apply extract_flat|].
  destruct (write_if_cells (fun i => gt_half (val i)) triples
              triples_in_range zero_grid grid9_zero_grid) as [Hg Hcell].
  split; [exact Hg|]. intros r c Hr Hc.
  rewrite Hcell, cell_zero_grid by assumption. now apply trace_triples.
Qed.

(** ** The value left in a cell *)

Lemma pick_none (p : Z -> bool) l a :
  (forall x, In x l -> p x = false) ->
  fold_left (fun acc x => if p x then x else acc) l a = a.
Proof.
  revert a. induction l as [|x l IH]; intros a Hp; simpl; [reflexivity|].
  rewrite (Hp x) by now left. apply IH. intros y Hy. apply Hp. now right.
Qed.

Lemma pick_last_match (p : Z -> bool) l1 v l2 a :
  p v = true -> (forall x, In x l2 -> p x = false) ->
  fold_left (fun acc x => if p x then x else acc) (l1 ++ v :: l2) a = v.
Proof.
  intros Hv Hl2. rewrite fold_left_app. simpl. rewrite Hv.
  now apply pick_none.
Qed.

Lemma values_split v :
  1 <= v <= 9 -> values = range2 1 v ++ v :: range2 (v + 1) 10.
Proof.
  intros Hv.
  assert (Hin : In v [1; 2; 3; 4; 5; 6; 7; 8; 9]) by (simpl; lia).
  simpl in Hin.
  repeat (destruct Hin as [<-|Hin]; [reflexivity|]). contradiction.
Qed.

(** The largest passing [v] is the one left in the cell. *)
Lemma pick_largest b r c v :
  1 <= v <= 9 -> b (var_index r c v) = true ->
  (forall v', v < v' <= 9 -> b (var_index r c v') = false) ->
  pick b r c = v.
Proof.
  intros Hv Hb Hlater. unfold pick. rewrite (values_split v Hv).
  apply (pick_last_match (fun x => b (var_index r c x))); [exact Hb|].
  intros x Hx. apply in_range2 in Hx. apply Hlater. lia.
Qed.

Lemma pick_zero b r c :
  (forall v, 1 <= v <= 9 -> b (var_index r c v) = false) -> pick b r c = 0.
Proof.
  intros Hnone. unfold pick.
  apply (pick_none (fun x => b (var_index r c x))).
  intros x Hx. apply in_values in Hx. now apply Hnone.
Qed.

Lemma pick_unique b r c v :
  1 <= v <= 9 -> b (var_index r c v) = true ->
  (forall v', 1 <= v' <= 9 -> b (var_index r c v') = true -> v' = v) ->
  pick b r c = v.
Proof.
  intros Hv Hb Huniq. apply pick_largest; trivial.
  intros v' Hv'. destruct (b (var_index r c v')) eqn:E; [|reflexivity].
  assert (v' = v) by (apply Huniq; [lia|exact E]). lia.
Qed.

Lemma pick_ext b b' r c :
  (forall i, 0 <= i < num_vars -> b i = b' i) ->
  0 <= r < 9 -> 0 <= c < 9 -> pick b r c = pick b' r c.
Proof.
  intros Hbb Hr Hc. unfold pick.
  assert (Hgen : forall l a, (forall v, In v l -> In v values) ->
            fold_left (fun acc v => if b (var_index r c v) then v else acc)
                      l a =
            fold_left (fun acc v => if b' (var_index r c v) then v else acc)
                      l a).
  { induction l as [|v l IH]; intros a Hl; [reflexivity|]. simpl.
    rewrite (Hbb (var_index r c v)).
    - apply IH. intros w Hw. apply Hl. now right.
    - apply var_index_range; trivial. apply in_values. apply Hl. now left. }
  apply Hgen. auto.
Qed.

(** ** The threshold and 0/1 values *)

Lemma gt_half_true q :
  gt_half q = true <-> (q < - (1 # 2) \/ (1 # 2) < q)%Q.
Proof.
  unfold gt_half. rewrite negb_true_iff, <- not_true_iff_false, Qle_bool_iff.
  rewrite Qabs_Qle_condition. split.
  - intros Hn. destruct (Qlt_le_dec q (- (1 # 2))) as [Hlt|Hge]; [now left|].
    destruct (Qlt_le_dec (1 # 2) q) as [Hlt'|Hle]; [now right|].
    exfalso. apply Hn. now split.
  - intros [Hlt|Hlt] [Hlo Hhi]; lra.
Qed.

Lemma gt_half_one q : (q == 1)%Q -> gt_half q = true.
Proof. intros Hq. apply gt_half_true. right. lra. Qed.

Lemma gt_half_zero q : (q == 0)%Q -> gt_half q = false.
Proof.
  intros Hq. apply not_true_iff_false. rewrite gt_half_true.
  intros [H|H]; lra.
Qed.

Lemma gt_half_near q a :
  (Qabs (q - a) < 1 # 2)%Q -> (a == 0)%Q \/ (a == 1)%Q ->
  gt_half q = gt_half a.
Proof.
  intros Hnear Ha. apply Qabs_Qlt_condition in Hnear.
  destruct Hnear as [Hlo Hhi]. destruct Ha as [Ha|Ha].
  - rewrite (gt_half_zero a Ha). apply not_true_iff_false.
    rewrite gt_half_true. intros [H|H]; lra.
  - rewrite (gt_half_one a Ha). apply gt_half_true. right. lra.
Qed.

Lemma fold_Qplus_shift (l : list Q) (a : Q) :
  (fold_left Qplus l a == a + fold_left Qplus l 0)%Q.
Proof.
  revert a. induction l as [|q l IH]; intros a; simpl; [ring|].
  rewrite (IH (a + q)%Q), (IH (0 + q)%Q). ring.
Qed.

Lemma lin_value_cons val i cs :
  (lin_value val (i :: cs) == val i + lin_value val cs)%Q.
Proof.
  unfold lin_value. simpl. rewrite fold_Qplus_shift. ring.
Qed.

Lemma lin_value_nonneg val cs :
  binary_on val cs -> (0 <= lin_value val cs)%Q.
Proof.
  induction 1 as [|i cs Hi _ IH].
  - unfold lin_value. simpl. lra.
  - rewrite lin_value_cons. destruct Hi; lra.
Qed.

Lemma lin_value_zero val cs :
  binary_on val cs -> (lin_value val cs == 0)%Q ->
  forall i, In i cs -> (val i == 0)%Q.
Proof.
  induction 1 as [|k cs Hk Hcs IH]; intros Hsum i Hi; [contradiction|].
  rewrite lin_value_cons in Hsum.
  pose proof (lin_value_nonneg val cs Hcs) as Hnn.
  destruct Hi as [<-|Hi].
  - destruct Hk; lra.
  - apply IH; trivial. destruct Hk; lra.
Qed.

(** An exactly-one row forces some listed variable to 1... *)
Lemma exactly_one_exists val cs :
  binary_on val cs -> (lin_value val cs == 1)%Q ->
  exists i, In i cs /\ (val i == 1)%Q.
Proof.
  induction 1 as [|k cs Hk Hcs IH]; intros Hsum.
  - unfold lin_value in Hsum. simpl in Hsum. lra.
  - rewrite lin_value_cons in Hsum. destruct Hk as [Hk|Hk].
    + destruct IH as (i & Hi & Hv); [lra|].
      exists i. split; [now right|exact Hv].
    + exists k. split; [now left|exact Hk].
Qed.

(** ... and no two of them. *)
Lemma exactly_one_unique val cs :
  binary_on val cs -> (lin_value val cs == 1)%Q ->
  forall i j, In i cs -> In j cs -> (val i == 1)%Q -> (val j == 1)%Q -> i = j.
Proof.
  induction 1 as [|k cs Hk Hcs IH]; intros Hsum i j Hi Hj Hvi Hvj;
    [contradiction|].
  rewrite lin_value_cons in Hsum. destruct Hk as [Hk|Hk].
  - destruct Hi as [<-|Hi]; [lra|]. destruct Hj as [<-|Hj]; [lra|].
    apply IH; trivial. lra.
  - assert (Hz : forall x, In x cs -> (val x == 0)%Q).
    { apply lin_value_zero; trivial. lra. }
    destruct Hi as [<-|Hi]; [|specialize (Hz i Hi); lra].
    destruct Hj as [<-|Hj]; [reflexivity|specialize (Hz j Hj); lra].
Qed.

(** ** From a feasible point to a solved grid *)

Lemma in_cell_family r c :
  0 <= r < 9 -> 0 <= c < 9 ->
  In (Constr (map (fun v => var_index r c v) values) 1) uniqueness_rows.
Proof.
  intros Hr Hc. unfold uniqueness_rows, cell_family. apply in_or_app. left.
  apply in_flat_map. exists r. split; [now apply in_rows|].
  apply in_map_iff. exists c. split; [reflexivity|now apply in_cols].
Qed.

Lemma in_row_family r v :
  0 <= r < 9 -> 1 <= v <= 9 ->
  In (Constr (map (fun c => var_index r c v) cols) 1) uniqueness_rows.
Proof.
  intros Hr Hv. unfold uniqueness_rows, row_family.
  apply in_or_app. right. apply in_or_app. left.
  apply in_flat_map. exists r. split; [now apply in_rows|].
  apply in_map_iff. exists v. split; [reflexivity|now apply in_values].
Qed.

Lemma in_col_family c v :
  0 <= c < 9 -> 1 <= v <= 9 ->
  In (Constr (map (fun r => var_index r c v) rows) 1) uniqueness_rows.
Proof.
  intros Hc Hv. unfold uniqueness_rows, col_family.
  apply in_or_app. right. apply in_or_app. right. apply in_or_app. left.
  apply in_flat_map. exists c. split; [now apply in_cols|].
  apply in_map_iff. exists v. split; [reflexivity|now apply in_values].
Qed.

Lemma in_block_family br bc v :
  In br (range3 0 n block) -> In bc (range3 0 n block) -> 1 <= v <= 9 ->
  In (Constr (map (fun rc => var_index (fst rc) (snd rc) v)
                  (block_cells br bc)) 1) uniqueness_rows.
Proof.
  intros Hbr Hbc Hv. unfold uniqueness_rows, block_family.
  apply in_or_app. right. apply in_or_app. right. apply in_or_app. right.
  apply in_flat_map. exists br. split; [exact Hbr|].
  apply in_flat_map. exists bc. split; [exact Hbc|].
  apply in_map_iff. exists v. split; [reflexivity|now apply in_values].
Qed.

Lemma in_block_cells br bc r c :
  In (r, c) (block_cells br bc) <-> br <= r < br + 3 /\ bc <= c < bc + 3.
Proof.
  unfold block_cells, block. rewrite in_flat_map. split.
  - intros (r' & Hr' & Hin). apply in_map_iff in Hin.
    destruct Hin as (c' & [= <- <-] & Hc').
    apply in_range2 in Hr', Hc'. tauto.
  - intros [Hr Hc]. exists r. split; [now apply in_range2|].
    apply in_map_iff. exists c. split; [reflexivity|now apply in_range2].
Qed.

Lemma cell_in_col g r c : 0 <= r < 9 -> In (cell g r c) (col_of g c).
Proof.
  intros Hr. unfold col_of. apply in_map_iff. exists r.
  split; [reflexivity|now apply in_range].
Qed.

Lemma cell_in_block g br bc r c :
  In (r, c) (block_cells br bc) -> In (cell g r c) (block_of g br bc).
Proof.
  intros Hin. apply in_block_cells in Hin. unfold block_of.
  apply in_flat_map. exists r. split; [apply in_range2; lia|].
  apply in_map_iff. exists c. split; [reflexivity|apply in_range2; lia].
Qed.

Lemma covers_one_to_nine l :
  length l = 9%nat -> (forall v, 1 <= v <= 9 -> In v l) ->
  Permutation l one_to_nine.
Proof.
  intros Hl Hcov. symmetry.
  apply NoDup_Permutation_bis;
    [apply NoDup_one_to_nine|rewrite Hl; simpl; lia|].
  intros v Hv. apply Hcov. now apply in_one_to_nine.
Qed.

Section Feasible.

Variables a val : Z -> Q.
Hypothesis Hbin : binary_point a.
Hypothesis Hnear : near val a.
Hypothesis Huniq : Forall (satisfies a) uniqueness_rows.

Lemma passes_iff i :
  0 <= i < num_vars -> gt_half (val i) = true <-> (a i == 1)%Q.
Proof.
  intros Hi. rewrite (gt_half_near _ (a i) (Hnear i Hi) (Hbin i Hi)).
  split; [|apply gt_half_one].
  intros Hp. destruct (Hbin i Hi) as [H0|H1]; [|exact H1].
  rewrite (gt_half_zero _ H0) in Hp. discriminate.
Qed.

Lemma exactly_one_row_sum cs :
  In (Constr cs 1) uniqueness_rows ->
  Forall (fun i => 0 <= i < num_vars) cs ->
  binary_on a cs /\ (lin_value a cs == 1)%Q.
Proof.
  intros Hin Hcs. split.
  - unfold binary_on. eapply Forall_impl; [|exact Hcs].
    intros i Hi. now apply Hbin.
  - rewrite Forall_forall in Huniq. exact (Huniq _ Hin).
Qed.

Lemma cell_one_passes r c : 0 <= r < 9 -> 0 <= c < 9 -> one_passes val r c.
Proof.
  intros Hr Hc.
  destruct (exactly_one_row_sum _ (in_cell_family r c Hr Hc))
    as [Hb Hs]; [index_in_range|].
  destruct (exactly_one_exists a _ Hb Hs) as (i & Hi & Hv).
  apply in_map_iff in Hi. destruct Hi as (v & <- & Hin).
  apply in_values in Hin. exists v. split; [exact Hin|]. split.
  - apply passes_iff; [apply var_index_range; lia|exact Hv].
  - intros v' Hv' Hp. apply passes_iff in Hp;
      [|apply var_index_range; lia].
    assert (E : var_index r c v' = var_index r c v).
    { apply (exactly_one_unique a _ Hb Hs); trivial;
        apply in_map_iff; eexists; (split; [reflexivity|]);
        now apply in_values. }
    apply var_index_inj in E; lia.
Qed.

Lemma row_covered r v :
  0 <= r < 9 -> 1 <= v <= 9 ->
  exists c, 0 <= c < 9 /\ gt_half (val (var_index r c v)) = true.
Proof.
  intros Hr Hv.
  destruct (exactly_one_row_sum _ (in_row_family r v Hr Hv))
    as [Hb Hs]; [index_in_range|].
  destruct (exactly_one_exists a _ Hb Hs) as (i & Hi & Hone).
  apply in_map_iff in Hi. destruct Hi as (c & <- & Hin).
  apply in_cols in Hin. exists c. split; [exact Hin|].
  apply passes_iff; [apply var_index_range; lia|exact Hone].
Qed.

Lemma col_covered c v :
  0 <= c < 9 -> 1 <= v <= 9 ->
  exists r, 0 <= r < 9 /\ gt_half (val (var_index r c v)) = true.
Proof.
  intros Hc Hv.
  destruct (exactly_one_row_sum _ (in_col_family c v Hc Hv))
    as [Hb Hs]; [index_in_range|].
  destruct (exactly_one_exists a _ Hb Hs) as (i & Hi & Hone).
  apply in_map_iff in Hi. destruct Hi as (r & <- & Hin).
  apply in_rows in Hin. exists r. split; [exact Hin|].
  apply passes_iff; [apply var_index_range; lia|exact Hone].
Qed.

Lemma block_covered br bc v :
  In br (range3 0 n block) -> In bc (range3 0 n block) -> 1 <= v <= 9 ->
  exists r c, In (r, c) (block_cells br bc) /\ 0 <= r < 9 /\ 0 <= c < 9 /\
    gt_half (val (var_index r c v)) = true.
Proof.
  intros Hbr Hbc Hv.
  assert (Hcells : forall rc, In rc (block_cells br bc) ->
            0 <= fst rc < 9 /\ 0 <= snd rc < 9).
  { intros [r c] Hin. apply in_block_cells in Hin.
    apply in_origins in Hbr, Hbc. simpl. lia. }
  destruct (exactly_one_row_sum _ (in_block_family br bc v Hbr Hbc Hv))
    as [Hb Hs].
  { rewrite Forall_map, Forall_forall. intros rc Hrc.
    apply Hcells in Hrc. apply var_index_range; lia. }
  destruct (exactly_one_exists a _ Hb Hs) as (i & Hi & Hone).
  apply in_map_iff in Hi. destruct Hi as ([r c] & <- & Hin).
  pose proof (Hcells _ Hin) as [Hr Hc]. simpl in Hr, Hc, Hone |- *.
  exists r, c. repeat split; trivial; try lia.
  apply passes_iff; [apply var_index_range; lia|exact Hone].
Qed.

(** The grid read back from [val]: the extraction returns it, every cell
    holds the one value whose variable is 1, and it is a solution. *)
Lemma feasible_extract :
  exists g, extract handles val = Ok g /\ grid9 g /\
    (forall r c, 0 <= r < 9 -> 0 <= c < 9 ->
       1 <= cell g r c <= 9 /\ (a (var_index r c (cell g r c)) == 1)%Q) /\
    sudoku_solution g.
Proof.
  destruct (extract_cells val) as (g & Hex & Hg & Hcell).
  exists g. split; [exact Hex|]. split; [exact Hg|].
  assert (Hpass : forall r c v, 0 <= r < 9 -> 0 <= c < 9 -> 1 <= v <= 9 ->
            gt_half (val (var_index r c v)) = true -> cell g r c = v).
  { intros r c v Hr Hc Hv Hp. rewrite Hcell by assumption.
    destruct (cell_one_passes r c Hr Hc) as (w & Hw & Hpw & Honly).
    rewrite (Honly v Hv Hp).
    now apply (pick_unique (fun i => gt_half (val i))). }
  split.
  - intros r c Hr Hc.
    destruct (cell_one_passes r c Hr Hc) as (w & Hw & Hpw & _).
    rewrite (Hpass r c w Hr Hc Hw Hpw). split; [exact Hw|].
    apply passes_iff; [apply var_index_range; lia|exact Hpw].
  - repeat split.
    + intros r Hr. apply in_range in Hr. unfold n in Hr.
      apply covers_one_to_nine; [now apply row_of_in|].
      intros v Hv. destruct (row_covered r v Hr Hv) as (c & Hc & Hp).
      rewrite <- (Hpass r c v Hr Hc Hv Hp). now apply cell_in_row.
    + intros c Hc. apply in_range in Hc. unfold n in Hc.
      apply covers_one_to_nine; [apply length_col_of|].
      intros v Hv. destruct (col_covered c v Hc Hv) as (r & Hr & Hp).
      rewrite <- (Hpass r c v Hr Hc Hv Hp). now apply cell_in_col.
    + intros br bc Hbr Hbc.
      apply covers_one_to_nine; [now apply length_block_of|].
      intros v Hv.
      destruct (block_covered br bc v Hbr Hbc Hv)
        as (r & c & Hin & Hr & Hc & Hp).
      rewrite <- (Hpass r c v Hr Hc Hv Hp). now apply cell_in_block.
Qed.

End Feasible.

(** ** More on the builder *)

Lemma emits_for_each {A B : Type} (l : list A) (body : A -> M unit)
    (G : A -> list B) :
  (forall a, In a l -> emits (body a) (length (G a))) ->
  emits (for_each l body) (length (flat_map G l)).
Proof.
  induction l as [|a l IH]; intros Hbody h u h' Hrun; simpl in Hrun.
  - unfold ret in Hrun. injection Hrun as _ <-.
    split; [reflexivity|]. exists []. rewrite app_nil_r.
    repeat split. constructor.
  - unfold bind in Hrun. destruct (body a h) as [[u1 h1]|] eqn:E1;
      [|discriminate].
    destruct (Hbody a (or_introl eq_refl) _ _ _ E1)
      as [Hn1 (cs1 & Hc1 & Hl1 & Hf1)].
    destruct (IH (fun b Hb => Hbody b (or_intror Hb)) _ _ _ Hrun)
      as [Hn2 (cs2 & Hc2 & Hl2 & Hf2)].
    split; [congruence|]. exists (cs1 ++ cs2).
    split; [now rewrite Hc2, Hc1, app_assoc|]. split.
    + cbn [flat_map]. rewrite !length_app. congruence.
    + apply Forall_app. now split.
Qed.

(** The given-fixing loop adds one row per subscript it evaluates. *)
Lemma add_given_emits x puzzle :
  emits (add_given_constraints x puzzle) (length (given_indices puzzle)).
Proof.
  unfold add_given_constraints, given_indices.
  apply emits_for_each. intros r _. apply emits_for_each. intros c _.
  cbv zeta. intros h u h' Hrun.
  destruct (negb (cell puzzle r c =? 0)).
  - unfold bind, lift in Hrun.
    destruct (getitem x _) as [xi|]; [|discriminate].
    unfold addConstr in Hrun. injection Hrun as _ <-.
    split; [reflexivity|]. eexists. split; [reflexivity|].
    split; [reflexivity|]. repeat constructor.
  - unfold ret in Hrun. injection Hrun as _ <-.
    split; [reflexivity|]. exists []. rewrite app_nil_r.
    repeat split. constructor.
Qed.

(** Whenever the builder completes, the handles are [handles] and the
    model holds the 324 uniqueness rows followed by one fixing row per
    subscript of the given-fixing loop. *)
Lemma build_inv puzzle x h :
  build puzzle = Ok (x, h) ->
  x = handles /\ num_col h = num_vars /\
  exists fixes, constrs h = uniqueness_rows ++ fixes /\
    length fixes = length (given_indices puzzle) /\ Forall fixes_one fixes.
Proof.
  unfold build, bind at 1, addBinaries, new_Highs.
  cbn [num_col constrs]. change (range2 0 (0 + num_vars)) with handles.
  unfold bind at 1. rewrite uniqueness_appends. unfold bind at 1.
  destruct (add_given_constraints handles puzzle _) as [[u h']|] eqn:E;
    [|discriminate].
  unfold ret. intros [= <- <-].
  destruct (add_given_emits _ _ _ _ _ E) as [Hn (cs & Hcs & Hl & Hf)].
  cbn [num_col constrs] in Hn, Hcs. split; [reflexivity|].
  split; [exact Hn|]. now exists cs.
Qed.

Lemma length_flat_map_filter {A B : Type} (p : B -> bool)
    (F : A -> list B) (G : A -> list Z) (l : list A) :
  (forall a, length (G a) = length (filter p (F a))) ->
  length (flat_map G l) = length (filter p (flat_map F l)).
Proof.
  intros HFG. induction l as [|a l IH]; simpl; [reflexivity|].
  now rewrite filter_app, !length_app, HFG, IH.
Qed.

Lemma length_select {A : Type} (p : Z -> bool) (f : A -> Z) (h : A -> Z)
    (l : list A) :
  length (flat_map (fun c => if p (f c) then [h c] else []) l) =
  length (filter p (map f l)).
Proof.
  induction l as [|a l IH]; simpl; [reflexivity|].
  destruct (p (f a)); simpl; now rewrite IH.
Qed.

Lemma length_given_rows puzzle :
  grid9 puzzle -> length (given_rows puzzle) = count_givens puzzle.
Proof.
  intros Hg. unfold given_rows, count_givens. rewrite length_map.
  assert (E : concat puzzle =
              flat_map (fun r => map (fun c => cell puzzle r c) cols) rows).
  { rewrite flat_map_concat_map. now rewrite <- (grid9_table puzzle Hg). }
  rewrite E. unfold given_indices.
  apply length_flat_map_filter. intros r.
  apply (length_select (fun z => negb (z =? 0)) (fun c => cell puzzle r c)
           (fun c => var_index r c (cell puzzle r c))).
Qed.

Lemma in_given_rows puzzle r c :
  0 <= r < 9 -> 0 <= c < 9 -> cell puzzle r c <> 0 ->
  In (Constr [var_index r c (cell puzzle r c)] 1) (given_rows puzzle).
Proof.
  intros Hr Hc Hnz. unfold given_rows.
  apply (in_map (fun i => Constr [i] 1)).
  unfold given_indices. apply in_flat_map. exists r.
  split; [now apply in_rows|]. apply in_flat_map. exists c.
  split; [now apply in_cols|]. cbv zeta.
  apply Z.eqb_neq in Hnz. rewrite Hnz. now left.
Qed.

Lemma near_refl val : near val val.
Proof.
  intros i _. apply Qabs_Qlt_condition. split; lra.
Qed.

Lemma assignment_of_index g r c v :
  0 <= r < 9 -> 0 <= c < 9 -> 1 <= v <= 9 ->
  assignment_of g (var_index r c v) = if cell g r c =? v then 1%Q else 0%Q.
Proof.
  intros Hr Hc Hv. unfold assignment_of.
  now rewrite var_coords_index.
Qed.

Lemma table_ext (f g : Z -> Z -> Z) :
  (forall r c, 0 <= r < 9 -> 0 <= c < 9 -> f r c = g r c) ->
  map (fun r => map (fun c => f r c) cols) rows =
  map (fun r => map (fun c => g r c) cols) rows.
Proof.
  intros Hfg. apply map_ext_in. intros r Hr. apply map_ext_in. intros c Hc.
  apply in_rows in Hr. apply in_cols in Hc. now apply Hfg.
Qed.

(** ** Concrete grids *)

Ltac entries_by_cases :=
  unfold entries;
  repeat first [apply Forall_nil | apply Forall_cons];
  cbv beta; lia.

Ltac grid9_by_cases :=
  split; [reflexivity|repeat first [apply Forall_nil | apply Forall_cons]];
  reflexivity.

Lemma grid9_example_puzzle : grid9 example_puzzle.
Proof. grid9_by_cases. Qed.

Lemma grid9_example_solution : grid9 example_solution.
Proof. grid9_by_cases. Qed.

Lemma grid9_disguised : grid9 disguised_grid.
Proof. grid9_by_cases. Qed.

Lemma grid9_puzzle_with_ten : grid9 puzzle_with_ten.
Proof. grid9_by_cases. Qed.

Lemma entries_example_puzzle : entries (fun z => 0 <= z <= 9) example_puzzle.
Proof. entries_by_cases. Qed.

Lemma entries_example_solution :
  entries (fun z => 1 <= z <= 9) example_solution.
Proof. entries_by_cases. Qed.

(** ** The variable numbering is a bijection *)

(** C1: on rows and columns 0..8 and values 1..9, [var_index] lands in
    [0, 729), sends distinct triples to distinct indices, and has
    [var_coords] as its inverse in both directions, so it is onto
    [0, 729). *)
Theorem var_index_bijection :
  (forall r c v, 0 <= r < 9 -> 0 <= c < 9 -> 1 <= v <= 9 ->
     0 <= var_index r c v < 729) /\
  (forall r c v r' c' v',
     0 <= r < 9 -> 0 <= c < 9 -> 1 <= v <= 9 ->
     0 <= r' < 9 -> 0 <= c' < 9 -> 1 <= v' <= 9 ->
     var_index r c v = var_index r' c' v' -> (r, c, v) = (r', c', v')) /\
  (forall r c v, 0 <= r < 9 -> 0 <= c < 9 -> 1 <= v <= 9 ->
     var_coords (var_index r c v) = (r, c, v)) /\
  (forall i, 0 <= i < 729 ->
     exists r c v, 0 <= r < 9 /\ 0 <= c < 9 /\ 1 <= v <= 9 /\
       var_coords i = (r, c, v) /\ var_index r c v = i).
Proof.
  split; [exact var_index_range|]. split.
  - intros r c v r' c' v' Hr Hc Hv Hr' Hc' Hv' E.
    destruct (var_index_inj r c v r' c' v' Hr Hc Hv Hr' Hc' Hv' E)
      as (-> & -> & ->).
    reflexivity.
  - split; [exact var_coords_index|].
    intros i Hi. pose proof (var_index_coords i Hi) as H.
    destruct (var_coords i) as [[r c] v]. exists r, c, v.
    destruct H as (Hr & Hc & Hv & E). now repeat split.
Qed.

Lemma var_index_bijection_witness :
  0 <= var_index 4 7 3 < 729 /\
  var_coords (var_index 4 7 3) = (4, 7, 3) /\
  exists r c v, var_coords 400 = (r, c, v) /\ var_index r c v = 400.
Proof.
  destruct var_index_bijection as (Hrange & _ & Hleft & Hright).
  split; [apply Hrange; lia|]. split; [apply Hleft; lia|].
  destruct (Hright 400 ltac:(lia)) as (r & c & v & _ & _ & _ & E1 & E2).
  now exists r, c, v.
Defined.

(** ** The validator decides solutions of one-sided grids *)

(** C4, as amended: for a group of 9 integers that are all at least 1, or
    all at most 9, having 9 distinct elements and sum 45 is the same as
    being a permutation of 1..9; hence on a 9x9 grid whose entries are all
    at least 1, or all at most 9 (any grid with entries in 0..9 is one),
    [validate_sudoku] returns true exactly when every row, column and
    block is a permutation of 1..9. *)
Theorem validate_sudoku_one_sided :
  (forall l, length l = 9%nat ->
     Forall (fun z => 1 <= z) l \/ Forall (fun z => z <= 9) l ->
     (len_set l = n /\ sum l = 45 <-> Permutation l one_to_nine)) /\
  (forall g, grid9 g -> one_sided g ->
     (validate_sudoku g = true <-> sudoku_solution g)).
Proof.
  split; [|exact validate_sudoku_solution].
  intros l Hl Hside.
  assert (Hset : len_set l = n <-> NoDup l).
  { unfold len_set, n. rewrite <- length_nodup_NoDup, Hl. lia. }
  rewrite Hset. split.
  - intros [Hnd Hs]. now apply group_is_one_to_nine.
  - intros Hp. apply one_to_nine_group in Hp. tauto.
Qed.

Lemma validate_sudoku_one_sided_witness :
  validate_sudoku example_solution = true <-> sudoku_solution example_solution.
Proof.
  apply (proj2 validate_sudoku_one_sided).
  - exact grid9_example_solution.
  - left. entries_by_cases.
Defined.

(** C4, as stated, fails: the grid obtained from a solution by writing 0
    for 8 and 17 for 9 passes the validator, and its first row has 9
    distinct elements of sum 45, but that row is no permutation of 1..9. *)
Lemma validate_accepts_disguised_grid :
  grid9 disguised_grid /\
  validate_sudoku disguised_grid = true /\
  ~ sudoku_solution disguised_grid /\
  (len_set (row_of disguised_grid 0) = n /\
   sum (row_of disguised_grid 0) = 45 /\
   ~ Permutation (row_of disguised_grid 0) one_to_nine).
Proof.
  assert (Hrow : ~ Permutation (row_of disguised_grid 0) one_to_nine).
  { intros Hp. assert (Hin : In 0 one_to_nine).
    { eapply Permutation_in; [exact Hp|]. vm_compute. tauto. }
    apply in_one_to_nine in Hin. lia. }
  split; [exact grid9_disguised|]. split; [reflexivity|]. split.
  - intros (H & _ & _). apply Hrow. apply H. apply in_range. unfold n. lia.
  - split; [reflexivity|]. split; [reflexivity|exact Hrow].
Qed.

(** C9: a 9x9 grid with entries in 0..9 that contains a 0 is rejected. *)
Theorem validate_rejects_blank (g : grid) :
  grid9 g -> entries (fun z => 0 <= z <= 9) g -> In 0 (concat g) ->
  validate_sudoku g = false.
Proof.
  intros Hg He Hzero. apply not_true_iff_false. intros Hv.
  assert (Hside : one_sided g).
  { right. unfold entries in *. eapply Forall_impl; [|exact He].
    intros row Hrow. eapply Forall_impl; [|exact Hrow].
    intros z Hz. simpl in Hz. lia. }
  apply (validate_sudoku_solution g Hg Hside) in Hv.
  destruct Hv as (Hrows & _ & _).
  apply in_concat in Hzero. destruct Hzero as (row & Hrow & Hin).
  destruct (In_nth g row [] Hrow) as (k & Hk & Ek).
  destruct Hg as [Hlen _]. rewrite Hlen in Hk.
  assert (Hp : Permutation (row_of g (Z.of_nat k)) one_to_nine).
  { apply Hrows. apply in_range. unfold n. lia. }
  unfold row_of in Hp. rewrite Nat2Z.id, Ek in Hp.
  assert (H0 : In 0 one_to_nine) by (eapply Permutation_in; eassumption).
  apply in_one_to_nine in H0. lia.
Qed.

Lemma validate_rejects_blank_witness :
  validate_sudoku example_puzzle = false.
Proof.
  apply validate_rejects_blank.
  - exact grid9_example_puzzle.
  - entries_by_cases.
  - simpl. right. right. left. reflexivity.
Defined.

(** ** What the builder creates *)

Lemma uniqueness_rows_shape : Forall exactly_one_of_nine uniqueness_rows.
Proof.
  assert (Hall : forallb (fun c => (length (c_cols c) =? 9)%nat &&
                                   (c_rhs c =? 1)) uniqueness_rows = true)
    by (vm_compute; reflexivity).
  rewrite forallb_forall in Hall. apply Forall_forall. intros c Hc.
  specialize (Hall c Hc). apply andb_true_iff in Hall.
  destruct Hall as [Hl Hr]. apply Nat.eqb_eq in Hl. apply Z.eqb_eq in Hr.
  now split.
Qed.

(** C5: for every 9x9 puzzle the builder, whenever it completes, has
    created the 729 binary variables and emitted, in this order, 81 cell,
    81 row, 81 column and 81 block rows, each an exactly-one equality over
    nine variables, followed by one equality-to-1 row per non-zero cell of
    the puzzle; and it does complete on every puzzle with entries 0..9. *)
Theorem build_counts (puzzle : grid) :
  grid9 puzzle ->
  (entries (fun z => 0 <= z <= 9) puzzle ->
   exists x h, build puzzle = Ok (x, h)) /\
  (forall x h, build puzzle = Ok (x, h) ->
   length x = 729%nat /\ num_col h = 729 /\
   exists fixes,
     constrs h =
       cell_family ++ row_family ++ col_family ++ block_family ++ fixes /\
     length cell_family = 81%nat /\ length row_family = 81%nat /\
     length col_family = 81%nat /\ length block_family = 81%nat /\
     Forall exactly_one_of_nine
       (cell_family ++ row_family ++ col_family ++ block_family) /\
     Forall fixes_one fixes /\
     length fixes = count_givens puzzle /\
     length (constrs h) = (324 + count_givens puzzle)%nat).
Proof.
  intros Hg. split.
  - intros He. eexists _, _. now apply build_ok.
  - intros x h Hb.
    destruct (build_inv puzzle x h Hb) as (-> & Hn & fixes & Hrows & Hl & Hf).
    assert (Hcount : length fixes = count_givens puzzle).
    { rewrite Hl, <- (length_given_rows puzzle Hg).
      unfold given_rows. now rewrite length_map. }
    split; [vm_compute; reflexivity|]. split; [exact Hn|].
    exists fixes.
    split; [rewrite Hrows; unfold uniqueness_rows; now rewrite <- !app_assoc|].
    do 4 (split; [vm_compute; reflexivity|]).
    split; [exact uniqueness_rows_shape|]. split; [exact Hf|].
    split; [exact Hcount|].
    rewrite Hrows, length_app, Hcount.
    replace (length uniqueness_rows) with 324%nat by (vm_compute; reflexivity).
    reflexivity.
Qed.

Lemma build_counts_witness :
  exists x h, build example_puzzle = Ok (x, h) /\
    length (constrs h) = (324 + 30)%nat.
Proof.
  destruct (build_counts example_puzzle grid9_example_puzzle)
    as [Hdone Hcounts].
  destruct Hdone as (x & h & Hb); [entries_by_cases|].
  exists x, h. split; [exact Hb|].
  destruct (Hcounts x h Hb)
    as (_ & _ & fixes & _ & _ & _ & _ & _ & _ & _ & _ & Hlen).
  exact Hlen.
Defined.

(** ** The subscripts of the given-fixing loop *)

(** C10: when every entry of a 9x9 puzzle lies in 0..9, every subscript
    the given-fixing loop evaluates lies in [0, 729) and the builder
    completes; without that bound the guarantee is lost: a 10 in cell
    (8, 8) makes the loop evaluate [x[729]], which raises. *)
Theorem given_fixing_in_bounds :
  (forall puzzle, grid9 puzzle -> entries (fun z => 0 <= z <= 9) puzzle ->
     Forall (fun i => 0 <= i < 729) (given_indices puzzle) /\
     build puzzle =
       Ok (handles, Model num_vars (uniqueness_rows ++ given_rows puzzle))) /\
  (grid9 puzzle_with_ten /\
   cell puzzle_with_ten 8 8 = 10 /\
   given_indices puzzle_with_ten = [var_index 8 8 10] /\
   var_index 8 8 10 = 729 /\
   getitem handles (var_index 8 8 10) = IndexError /\
   build puzzle_with_ten = IndexError).
Proof.
  split.
  - intros puzzle Hg He. split; [now apply given_indices_range|].
    now apply build_ok.
  - split; [exact grid9_puzzle_with_ten|].
    split; [vm_compute; reflexivity|]. split; [vm_compute; reflexivity|].
    split; [vm_compute; reflexivity|]. split; vm_compute; reflexivity.
Qed.

Lemma given_fixing_in_bounds_witness :
  Forall (fun i => 0 <= i < 729) (given_indices example_puzzle).
Proof.
  apply (proj1 given_fixing_in_bounds).
  - exact grid9_example_puzzle.
  - entries_by_cases.
Defined.

(** ** The status check *)

(** C7: once the model is built, [solve_sudoku] returns [None] for every
    status other than [kOptimal], and returns a grid only when the status
    is [kOptimal]. *)
Theorem solve_sudoku_status
    (run : Highs -> HighsModelStatus * (Z -> Q)) (puzzle : grid)
    (x : list Z) (h : Highs) :
  build puzzle = Ok (x, h) ->
  (fst (run h) <> kOptimal -> solve_sudoku run puzzle = Ok None) /\
  (forall g, solve_sudoku run puzzle = Ok (Some g) -> fst (run h) = kOptimal).
Proof.
  intros Hb. unfold solve_sudoku. rewrite Hb.
  destruct (run h) as [status val]. simpl fst. split.
  - intros Hs. destruct status; cbn [negb is_optimal];
      first [reflexivity | now contradiction Hs].
  - intros g. destruct status; cbn [negb is_optimal]; intros Hs;
      first [reflexivity | discriminate Hs].
Qed.

Lemma solve_sudoku_status_witness :
  solve_sudoku (fun _ => (kInfeasible, fun _ => 0%Q)) example_puzzle = Ok None.
Proof.
  refine (proj1 (solve_sudoku_status (fun _ => (kInfeasible, fun _ => 0%Q))
                   example_puzzle handles
                   (Model num_vars
                      (uniqueness_rows ++ given_rows example_puzzle))
                   _) _).
  - vm_compute. reflexivity.
  - cbv beta. cbn [fst]. discriminate.
Defined.

(** ** Extraction: which value a cell receives *)

(** C3, as amended: the extraction visits v = 1..9 in increasing order for
    each cell and never stops early, so the cell ends up holding the
    largest v whose value exceeds 0.5 in absolute value, and 0 when there
    is none. *)
Theorem extract_last_match (val : Z -> Q) :
  exists g, extract handles val = Ok g /\
    forall r c, 0 <= r < 9 -> 0 <= c < 9 ->
      (forall v, 1 <= v <= 9 ->
         gt_half (val (var_index r c v)) = true ->
         (forall v', v < v' <= 9 -> gt_half (val (var_index r c v')) = false) ->
         cell g r c = v) /\
      ((forall v, 1 <= v <= 9 -> gt_half (val (var_index r c v)) = false) ->
       cell g r c = 0).
Proof.
  destruct (extract_cells val) as (g & Hex & _ & Hcell).
  exists g. split; [exact Hex|]. intros r c Hr Hc. split.
  - intros v Hv Hp Hlater. rewrite Hcell by assumption.
    now apply (pick_largest (fun i => gt_half (val i))).
  - intros Hnone. rewrite Hcell by assumption.
    now apply (pick_zero (fun i => gt_half (val i))).
Qed.

Lemma extract_last_match_witness :
  exists g, extract handles two_hot = Ok g /\ cell g 0 0 = 2 /\ cell g 0 1 = 0.
Proof.
  destruct (extract_last_match two_hot) as (g & Hex & Hcells).
  exists g. split; [exact Hex|]. split.
  - apply (proj1 (Hcells 0 0 ltac:(lia) ltac:(lia)) 2);
      [lia|reflexivity|].
    intros v' Hv'. unfold two_hot, var_index, n.
    replace (0 * 9 * 9 + 0 * 9 + (v' - 1) =? 0) with false
      by (symmetry; apply Z.eqb_neq; lia).
    replace (0 * 9 * 9 + 0 * 9 + (v' - 1) =? 1) with false
      by (symmetry; apply Z.eqb_neq; lia).
    reflexivity.
  - apply (proj2 (Hcells 0 1 ltac:(lia) ltac:(lia))).
    intros v Hv. unfold two_hot, var_index, n.
    replace (0 * 9 * 9 + 1 * 9 + (v - 1) =? 0) with false
      by (symmetry; apply Z.eqb_neq; lia).
    replace (0 * 9 * 9 + 1 * 9 + (v - 1) =? 1) with false
      by (symmetry; apply Z.eqb_neq; lia).
    reflexivity.
Defined.

(** C3, as stated, fails: with v = 1 and v = 2 both above the threshold in
    cell (0, 0), the first (smallest) match is 1 but the cell receives 2. *)
Lemma extract_first_match_refuted :
  ~ (forall val g r c v,
       extract handles val = Ok g ->
       0 <= r < 9 -> 0 <= c < 9 -> 1 <= v <= 9 ->
       gt_half (val (var_index r c v)) = true ->
       (forall v', 1 <= v' < v -> gt_half (val (var_index r c v')) = false) ->
       cell g r c = v).
Proof.
  intros Hfirst.
  assert (Hex : extract handles two_hot =
                Ok ((2 :: repeat 0 8) :: repeat (repeat 0 9) 8))
    by (vm_compute; reflexivity).
  specialize (Hfirst two_hot _ 0 0 1 Hex ltac:(lia) ltac:(lia) ltac:(lia)
                eq_refl ltac:(intros; lia)).
  vm_compute in Hfirst. discriminate Hfirst.
Qed.

(** ** Round trip through the variables *)

(** C6: if variable [idx(r,c,v)] holds 1 when [g[r][c] == v] and 0
    otherwise, for a 9x9 grid [g] with entries in 1..9, the extraction
    returns exactly [g]. *)
Theorem extract_round_trip (g : grid) (val : Z -> Q) :
  grid9 g -> entries (fun z => 1 <= z <= 9) g ->
  (forall r c v, 0 <= r < 9 -> 0 <= c < 9 -> 1 <= v <= 9 ->
     (val (var_index r c v) == if cell g r c =? v then 1 else 0)%Q) ->
  extract handles val = Ok g.
Proof.
  intros Hg He Hval.
  destruct (extract_cells val) as (g' & Hex & Hg' & Hcell).
  rewrite Hex. f_equal.
  rewrite (grid9_table g' Hg'), (grid9_table g Hg).
  apply table_ext. intros r c Hr Hc. rewrite Hcell by assumption.
  pose proof (entries_cell _ g r c Hg He Hr Hc) as Hv. cbv beta in Hv.
  apply (pick_unique (fun i => gt_half (val i))); [exact Hv| |].
  - apply gt_half_one. rewrite Hval by assumption.
    now rewrite Z.eqb_refl.
  - intros v' Hv' Hp.
    destruct (Z.eqb_spec (cell g r c) v') as [E|E]; [now symmetry|].
    rewrite gt_half_zero in Hp; [discriminate|].
    rewrite Hval by assumption.
    destruct (Z.eqb_spec (cell g r c) v'); [contradiction|reflexivity].
Qed.

Lemma extract_round_trip_witness :
  extract handles (assignment_of example_solution) = Ok example_solution.
Proof.
  apply extract_round_trip.
  - exact grid9_example_solution.
  - entries_by_cases.
  - intros r c v Hr Hc Hv. rewrite assignment_of_index by assumption.
    apply Qeq_refl.
Defined.

(** ** From the solver's point to the solved grid *)

Lemma cells_entries (P : Z -> Prop) g :
  grid9 g -> (forall r c, 0 <= r < 9 -> 0 <= c < 9 -> P (cell g r c)) ->
  entries P g.
Proof.
  intros Hg Hcells. unfold entries. rewrite (grid9_table g Hg).
  rewrite Forall_map, Forall_forall. intros r Hr.
  rewrite Forall_map, Forall_forall. intros c Hc.
  apply in_rows in Hr. apply in_cols in Hc. now apply Hcells.
Qed.

Lemma assignment_of_binary g : binary_point (assignment_of g).
Proof.
  intros i _. unfold assignment_of.
  destruct (var_coords i) as [[r c] v].
  destruct (cell g r c =? v); [right|left]; apply Qeq_refl.
Qed.

Lemma satisfies_single val i :
  satisfies val (Constr [i] 1) -> (val i == 1)%Q.
Proof.
  unfold satisfies. cbn [c_cols c_rhs]. rewrite lin_value_cons.
  change (lin_value val []) with 0%Q. change (inject_Z 1) with 1%Q.
  intros H. lra.
Qed.

Lemma satisfiesb_all val cs :
  forallb (satisfiesb val) cs = true -> Forall (satisfies val) cs.
Proof.
  intros Hall. rewrite forallb_forall in Hall. apply Forall_forall.
  intros c Hc. apply Qeq_bool_iff. now apply Hall.
Qed.

(** C2: for a 9x9 puzzle with entries in 0..9 and a 0/1 point satisfying
    every row the builder emitted, the extraction returns a grid that
    keeps every given of the puzzle, whose rows, columns and blocks are
    permutations of 1..9, and that [validate_sudoku] accepts. *)
Theorem feasible_point_solves (puzzle : grid) (val : Z -> Q)
    (x : list Z) (h : Highs) :
  grid9 puzzle -> entries (fun z => 0 <= z <= 9) puzzle ->
  binary_point val ->
  build puzzle = Ok (x, h) ->
  Forall (satisfies val) (constrs h) ->
  exists g, extract x val = Ok g /\ grid9 g /\
    (forall r c, 0 <= r < 9 -> 0 <= c < 9 -> cell puzzle r c <> 0 ->
       cell g r c = cell puzzle r c) /\
    sudoku_solution g /\
    validate_sudoku g = true.
Proof.
  intros Hg He Hbin Hb Hsat.
  rewrite (build_ok puzzle Hg He) in Hb. injection Hb as <- <-.
  change (Forall (satisfies val) (uniqueness_rows ++ given_rows puzzle))
    in Hsat.
  apply Forall_app in Hsat.
  destruct Hsat as [Hu Hgiven].
  destruct (feasible_extract val val Hbin (near_refl val) Hu)
    as (g & Hex & Hg9 & Hcells & Hsol).
  exists g. split; [exact Hex|]. split; [exact Hg9|]. split.
  - intros r c Hr Hc Hnz.
    pose proof (entries_cell _ puzzle r c Hg He Hr Hc) as Hpv.
    cbv beta in Hpv.
    destruct (Hcells r c Hr Hc) as [Hv Hone].
    rewrite Forall_forall in Hgiven.
    pose proof (satisfies_single _ _
                  (Hgiven _ (in_given_rows puzzle r c Hr Hc Hnz))) as Hfix.
    destruct (exactly_one_row_sum val Hbin Hu _ (in_cell_family r c Hr Hc))
      as [Hb01 Hs]; [index_in_range|].
    assert (E : var_index r c (cell g r c) =
                var_index r c (cell puzzle r c)).
    { apply (exactly_one_unique val _ Hb01 Hs); trivial;
        apply in_map_iff; eexists; (split; [reflexivity|]);
        apply in_values; lia. }
    apply var_index_inj in E; lia.
  - split; [exact Hsol|]. now apply solution_validates.
Qed.

Lemma feasible_point_solves_witness :
  exists g, extract handles (assignment_of example_solution) = Ok g /\
    sudoku_solution g /\ validate_sudoku g = true /\ cell g 0 0 = 5.
Proof.
  destruct (feasible_point_solves example_puzzle
              (assignment_of example_solution) handles
              (Model num_vars (uniqueness_rows ++ given_rows example_puzzle)))
    as (g & Hex & _ & Hkeep & Hsol & Hval).
  - exact grid9_example_puzzle.
  - entries_by_cases.
  - apply assignment_of_binary.
  - vm_compute. reflexivity.
  - apply satisfiesb_all. vm_compute. reflexivity.
  - exists g. split; [exact Hex|]. split; [exact Hsol|]. split; [exact Hval|].
    apply (Hkeep 0 0); [lia|lia|]. vm_compute. discriminate.
Defined.

(** ** No blank is left *)

Lemma noisy_near a : binary_point a -> near (noisy a) a.
Proof.
  intros Hbin i Hi. unfold noisy. apply Qabs_Qlt_condition.
  destruct (Hbin i Hi) as [H|H]; split; lra.
Qed.

(** C8: when the solver reports [kOptimal] and the values it returns are
    within 1/2 of a 0/1 point satisfying every row of the model, exactly
    one candidate per cell passes the threshold and [solve_sudoku] returns
    the extracted grid, which is 9x9 with every entry in 1..9, so without
    any zero. *)
Theorem extract_fully_populated
    (run : Highs -> HighsModelStatus * (Z -> Q)) (puzzle : grid)
    (x : list Z) (h : Highs) (a val : Z -> Q) :
  build puzzle = Ok (x, h) ->
  run h = (kOptimal, val) ->
  binary_point a ->
  Forall (satisfies a) (constrs h) ->
  near val a ->
  (forall r c, 0 <= r < 9 -> 0 <= c < 9 -> one_passes val r c) /\
  exists g, extract x val = Ok g /\
    solve_sudoku run puzzle = Ok (Some g) /\
    grid9 g /\ entries (fun z => 1 <= z <= 9) g /\ ~ In 0 (concat g).
Proof.
  intros Hb Hrun Hbin Hsat Hnear.
  destruct (build_inv puzzle x h Hb) as (-> & _ & fixes & Hrows & _).
  rewrite Hrows in Hsat. apply Forall_app in Hsat. destruct Hsat as [Hu _].
  split; [intros r c; now apply (cell_one_passes a)|].
  destruct (feasible_extract a val Hbin Hnear Hu)
    as (g & Hex & Hg9 & Hcells & _).
  assert (He : entries (fun z => 1 <= z <= 9) g).
  { apply cells_entries; [exact Hg9|]. intros r c Hr Hc.
    now destruct (Hcells r c Hr Hc). }
  exists g. split; [exact Hex|]. split.
  - unfold solve_sudoku. rewrite Hb, Hrun. cbn [negb is_optimal].
    now rewrite Hex.
  - split; [exact Hg9|]. split; [exact He|].
    intros Hzero. apply in_concat in Hzero.
    destruct Hzero as (row & Hrow & Hin).
    unfold entries in He. rewrite Forall_forall in He.
    specialize (He row Hrow). rewrite Forall_forall in He.
    specialize (He 0 Hin). cbv beta in He. lia.
Qed.

Lemma extract_fully_populated_witness :
  exists g,
    solve_sudoku
      (fun _ => (kOptimal, noisy (assignment_of example_solution)))
      example_puzzle = Ok (Some g) /\
    grid9 g /\ ~ In 0 (concat g).
Proof.
  destruct (extract_fully_populated
              (fun _ => (kOptimal, noisy (assignment_of example_solution)))
              example_puzzle handles
              (Model num_vars (uniqueness_rows ++ given_rows example_puzzle))
              (assignment_of example_solution)
              (noisy (assignment_of example_solution)))
    as (_ & g & _ & Hsolve & Hg & _ & Hnz).
  - vm_compute. reflexivity.
  - reflexivity.
  - apply assignment_of_binary.
  - apply satisfiesb_all. vm_compute. reflexivity.
  - apply noisy_near, assignment_of_binary.
  - exists g. split; [exact Hsolve|]. split; [exact Hg|exact Hnz].
Defined.

(** ** Extraction on arbitrary values *)

Lemma pick_range b r c : 0 <= pick b r c <= 9.
Proof.
  unfold pick.
  assert (Hgen : forall l a, (forall v, In v l -> 1 <= v <= 9) ->
            0 <= a <= 9 ->
            0 <= fold_left (fun acc v => if b (var_index r c v) then v else acc)
                           l a <= 9).
  { induction l as [|v l IH]; intros a Hl Ha; simpl; [exact Ha|].
    apply IH; [intros w Hw; apply Hl; now right|].
    destruct (b (var_index r c v)); [|exact Ha].
    specialize (Hl v (or_introl eq_refl)). lia. }
  apply Hgen; [intros v Hv; now apply in_values|lia].
Qed.

Lemma fold_result_ext {A S : Type} (body body' : S -> A -> result S)
    (l : list A) :
  (forall s a, body s a = body' s a) ->
  forall s, fold_result body l s = fold_result body' l s.
Proof.
  intros Hbody. induction l as [|a l IH]; intros s; simpl; [reflexivity|].
  rewrite Hbody. destruct (body' s a); [apply IH|reflexivity].
Qed.

Lemma extract_ext x val val' :
  (forall i, gt_half (val i) = gt_half (val' i)) ->
  extract x val = extract x val'.
Proof.
  intros Hsame. unfold extract.
  apply fold_result_ext. intros s r.
  apply fold_result_ext. intros s' c.
  apply fold_result_ext. intros s'' v. cbv zeta.
  destruct (getitem x (var_index r c v)); [|reflexivity].
  now rewrite Hsame.
Qed.

Lemma gt_half_opp q : gt_half (- q) = gt_half q.
Proof.
  apply eq_true_iff_eq. rewrite !gt_half_true. split; intros [H|H];
    [right|left|right|left]; lra.
Qed.

Lemma gt_half_small q : (Qabs q <= 1 # 2)%Q -> gt_half q = false.
Proof.
  intros Hq. unfold gt_half. apply negb_false_iff. now apply Qle_bool_iff.
Qed.

Lemma extract_entries val :
  exists g, extract handles val = Ok g /\ grid9 g /\
    entries (fun z => 0 <= z <= 9) g.
Proof.
  destruct (extract_cells val) as (g & Hex & Hg & Hcell).
  exists g. split; [exact Hex|]. split; [exact Hg|].
  apply cells_entries; [exact Hg|]. intros r c Hr Hc.
  rewrite Hcell by assumption. apply pick_range.
Qed.

(** What [solve_sudoku] does once the model is built. *)
Lemma solve_sudoku_built run puzzle h :
  build puzzle = Ok (handles, h) ->
  solve_sudoku run puzzle =
  if negb (is_optimal (fst (run h))) then Ok None
  else match extract handles (snd (run h)) with
       | Ok solution => Ok (Some solution)
       | IndexError => IndexError
       end.
Proof.
  intros Hb. unfold solve_sudoku. rewrite Hb.
  now destruct (run h) as [status val].
Qed.

(** [solve_sudoku] raises when the builder does, and only then. *)
Lemma solve_sudoku_cases run puzzle :
  (build puzzle = IndexError /\ solve_sudoku run puzzle = IndexError) \/
  (exists h, build puzzle = Ok (handles, h) /\
     exists g, extract handles (snd (run h)) = Ok g /\
       solve_sudoku run puzzle =
       if negb (is_optimal (fst (run h))) then Ok None else Ok (Some g)).
Proof.
  pose proof (build_inv puzzle) as Hinv.
  pose proof (solve_sudoku_built run puzzle) as Hsolve.
  unfold solve_sudoku at 1.
  revert Hinv Hsolve. generalize (build puzzle) as b.
  intros [[x h]|] Hinv Hsolve.
  - right. destruct (Hinv x h eq_refl) as (-> & _).
    exists h. split; [reflexivity|].
    destruct (extract_cells (snd (run h))) as (g & Hex & _).
    exists g. split; [exact Hex|].
    rewrite (Hsolve h eq_refl), Hex. reflexivity.
  - left. split; reflexivity.
Qed.

(** X1: whatever the solver returns, a grid returned by [solve_sudoku] is
    9x9 with entries in 0..9, so [validate_sudoku] is exact on it: it
    answers true exactly when every row, column and block of the returned
    grid is a permutation of 1..9. *)
Theorem solve_sudoku_result_validated
    (run : Highs -> HighsModelStatus * (Z -> Q)) (puzzle g : grid) :
  solve_sudoku run puzzle = Ok (Some g) ->
  grid9 g /\ entries (fun z => 0 <= z <= 9) g /\
  (validate_sudoku g = true <-> sudoku_solution g).
Proof.
  intros Hsolve.
  destruct (solve_sudoku_cases run puzzle)
    as [[_ Hr]|(h & _ & g0 & Hex0 & Hr)]; rewrite Hr in Hsolve;
    [discriminate Hsolve|].
  destruct (negb (is_optimal (fst (run h)))); [discriminate Hsolve|].
  injection Hsolve as ->.
  destruct (extract_entries (snd (run h))) as (g' & Hex & Hg & He).
  rewrite Hex in Hex0. injection Hex0 as ->.
  split; [exact Hg|]. split; [exact He|].
  apply validate_sudoku_solution; [exact Hg|].
  right. unfold entries in *. eapply Forall_impl; [|exact He].
  intros row Hrow. eapply Forall_impl; [|exact Hrow].
  intros z Hz. cbv beta in Hz. lia.
Qed.

Lemma solve_sudoku_result_validated_witness :
  validate_sudoku example_solution = true <-> sudoku_solution example_solution.
Proof.
  apply (solve_sudoku_result_validated
           (fun _ => (kOptimal, assignment_of example_solution))
           example_puzzle example_solution).
  vm_compute. reflexivity.
Defined.

(** X2: the extraction looks at absolute values only: negating every
    returned value leaves the extracted grid unchanged. *)
Theorem extract_sign_blind (x : list Z) (val : Z -> Q) :
  extract x (fun i => (- val i)%Q) = extract x val.
Proof.
  apply extract_ext. intros i. apply gt_half_opp.
Qed.

(** X3: the threshold is strict. When the solver reports [kOptimal] but no
    returned value exceeds 0.5 in absolute value (0.5 itself included),
    [solve_sudoku] still returns a grid, the all-zero one, which
    [validate_sudoku] rejects. *)
Theorem solve_sudoku_blank_result
    (run : Highs -> HighsModelStatus * (Z -> Q)) (puzzle : grid)
    (x : list Z) (h : Highs) (val : Z -> Q) :
  build puzzle = Ok (x, h) ->
  run h = (kOptimal, val) ->
  (forall i, 0 <= i < num_vars -> (Qabs (val i) <= 1 # 2)%Q) ->
  solve_sudoku run puzzle = Ok (Some zero_grid) /\
  validate_sudoku zero_grid = false.
Proof.
  intros Hb Hrun Hsmall. split; [|reflexivity].
  destruct (build_inv puzzle x h Hb) as (-> & _).
  rewrite (solve_sudoku_built run puzzle h Hb), Hrun. cbn [fst snd negb is_optimal].
  destruct (extract_cells val) as (g & Hex & Hg & Hcell).
  rewrite Hex. do 2 f_equal.
  rewrite (grid9_table g Hg), (grid9_table zero_grid grid9_zero_grid).
  apply table_ext. intros r c Hr Hc.
  rewrite Hcell, cell_zero_grid by assumption.
  apply pick_zero. intros v Hv. apply gt_half_small, Hsmall.
  now apply var_index_range.
Qed.

Lemma solve_sudoku_blank_result_witness :
  solve_sudoku (fun _ => (kOptimal, fun _ => (1 # 2)%Q)) example_puzzle =
  Ok (Some zero_grid).
Proof.
  refine (proj1 (solve_sudoku_blank_result
                   (fun _ => (kOptimal, fun _ => (1 # 2)%Q)) example_puzzle
                   handles
                   (Model num_vars
                      (uniqueness_rows ++ given_rows example_puzzle))
                   (fun _ => (1 # 2)%Q) _ _ _)).
  - vm_compute. reflexivity.
  - reflexivity.
  - intros i _. vm_compute. discriminate.
Defined.

(** ** When the builder raises *)

Lemma length_handles : Z.of_nat (length handles) = num_vars.
Proof. reflexivity. Qed.

Lemma getitem_handles_valid i :
  ~ bad_subscript i -> getitem handles i = Ok (i mod num_vars).
Proof.
  intros Hok. unfold bad_subscript in Hok.
  assert (Hn : num_vars = 729) by reflexivity.
  destruct (Z.ltb_spec i 0) as [Hneg|Hpos].
  - assert (E : getitem handles i = getitem handles (i + num_vars)).
    { unfold getitem. rewrite length_handles.
      replace (i <? 0) with true by (symmetry; apply Z.ltb_lt; lia).
      replace (i + num_vars <? 0) with false
        by (symmetry; apply Z.ltb_ge; lia).
      reflexivity. }
    rewrite E, getitem_handles by lia. f_equal.
    change num_vars with 729 in *. Z.div_mod_to_equations. lia.
  - rewrite getitem_handles by lia. f_equal. symmetry.
    apply Z.mod_small. lia.
Qed.

Lemma getitem_handles_bad i :
  bad_subscript i -> getitem handles i = IndexError.
Proof.
  intros Hbad. unfold bad_subscript in Hbad.
  assert (Hn : num_vars = 729) by reflexivity.
  unfold getitem. rewrite length_handles.
  destruct (Z.ltb_spec i 0) as [Hneg|Hpos].
  - replace (0 <=? i + num_vars) with false
      by (symmetry; apply Z.leb_gt; lia).
    reflexivity.
  - replace (i <? num_vars) with false by (symmetry; apply Z.ltb_ge; lia).
    now rewrite andb_false_r.
Qed.

Lemma appends_completes m cs : appends m cs -> completes m.
Proof. intros Hm h. rewrite Hm. now eexists. Qed.

(** A loop whose iterations each either complete or raise raises exactly
    when one of its iterations does. *)
Lemma for_each_outcome {A B : Type} (l : list A) (body : A -> M unit)
    (G : A -> list B) (bad : B -> Prop) :
  (forall a, In a l ->
     (~ Exists bad (G a) /\ completes (body a)) \/
     (Exists bad (G a) /\ raises (body a))) ->
  (~ Exists bad (flat_map G l) /\ completes (for_each l body)) \/
  (Exists bad (flat_map G l) /\ raises (for_each l body)).
Proof.
  induction l as [|a l IH]; intros Hbody.
  - left. split; [intros H; inversion H|]. intros h. now exists h.
  - cbn [flat_map for_each].
    destruct (Hbody a (or_introl eq_refl)) as [[Hok Hc]|[Hbad Hr]].
    + destruct (IH (fun b Hb => Hbody b (or_intror Hb)))
        as [[Hok' Hc']|[Hbad' Hr']].
      * left. split.
        -- rewrite Exists_app. tauto.
        -- intros h. unfold bind. destruct (Hc h) as (h1 & ->). apply Hc'.
      * right. split; [apply Exists_app; now right|].
        intros h. unfold bind. destruct (Hc h) as (h1 & ->). apply Hr'.
    + right. split; [apply Exists_app; now left|].
      intros h. unfold bind. now rewrite Hr.
Qed.

Lemma add_given_outcome puzzle :
  (~ Exists bad_subscript (given_indices puzzle) /\
   completes (add_given_constraints handles puzzle)) \/
  (Exists bad_subscript (given_indices puzzle) /\
   raises (add_given_constraints handles puzzle)).
Proof.
  unfold add_given_constraints, given_indices.
  apply for_each_outcome. intros r _.
  apply for_each_outcome. intros c _. cbv zeta.
  destruct (negb (cell puzzle r c =? 0)).
  - set (i := var_index r c (cell puzzle r c)).
    assert (Hdec : bad_subscript i \/ ~ bad_subscript i)
      by (unfold bad_subscript; lia).
    destruct Hdec as [Hbad|Hok].
    + right. split; [now constructor|].
      intros h. unfold bind, lift. now rewrite getitem_handles_bad.
    + left. split.
      * intros H. inversion H as [? ? H1|? ? H1]; subst; [tauto|inversion H1].
      * intros h. unfold bind, lift.
        rewrite getitem_handles_valid by exact Hok. now eexists.
  - left. split; [intros H; inversion H|]. intros h. now exists h.
Qed.

Lemma add_given_appends_valid puzzle :
  ~ Exists bad_subscript (given_indices puzzle) ->
  appends (add_given_constraints handles puzzle)
          (map (fun i => Constr [i mod num_vars] 1) (given_indices puzzle)).
Proof.
  intros Hok. unfold add_given_constraints.
  unfold given_indices in *.
  rewrite flat_map_concat_map, concat_map, map_map, <- flat_map_concat_map.
  apply appends_for_each. intros r Hr.
  rewrite flat_map_concat_map, concat_map, map_map, <- flat_map_concat_map.
  apply appends_for_each. intros c Hc. cbv zeta.
  destruct (negb (cell puzzle r c =? 0)) eqn:E; simpl.
  - intros h. unfold bind, lift.
    rewrite getitem_handles_valid; [reflexivity|].
    intros Hbad. apply Hok.
    apply Exists_exists. exists (var_index r c (cell puzzle r c)).
    split; [|exact Hbad].
    apply in_flat_map. exists r. split; [exact Hr|].
    apply in_flat_map. exists c. split; [exact Hc|].
    cbv zeta. rewrite E. now left.
  - apply appends_ret.
Qed.

Lemma build_unfold puzzle :
  build puzzle =
  match add_given_constraints handles puzzle (Model num_vars uniqueness_rows)
  with
  | Ok (_, h) => Ok (handles, h)
  | IndexError => IndexError
  end.
Proof.
  unfold build, bind at 1, addBinaries, new_Highs.
  cbn [num_col constrs]. change (range2 0 (0 + num_vars)) with handles.
  unfold bind at 1. rewrite uniqueness_appends. unfold bind at 1.
  cbn [num_col constrs app].
  now destruct (add_given_constraints handles puzzle _) as [[u h']|].
Qed.



(** ** The four families partition the variables *)

(** X5: whatever the puzzle, every one of the 729 variables occurs in
    exactly one cell row, one row row, one column row and one block row of
    the model: each family splits the variables into 81 groups of nine. *)
Theorem families_partition (i : Z) :
  0 <= i < num_vars ->
  count_occ Z.eq_dec (family_cols cell_family) i = 1%nat /\
  count_occ Z.eq_dec (family_cols row_family) i = 1%nat /\
  count_occ Z.eq_dec (family_cols col_family) i = 1%nat /\
  count_occ Z.eq_dec (family_cols block_family) i = 1%nat.
Proof.
  intros Hi.
  assert (Hall : forallb (fun j =>
            (count_occ Z.eq_dec (family_cols cell_family) j =? 1)%nat &&
            (count_occ Z.eq_dec (family_cols row_family) j =? 1)%nat &&
            (count_occ Z.eq_dec (family_cols col_family) j =? 1)%nat &&
            (count_occ Z.eq_dec (family_cols block_family) j =? 1)%nat)
            handles = true) by (vm_compute; reflexivity).
  rewrite forallb_forall in Hall.
  specialize (Hall i ltac:(apply in_range2; lia)).
  rewrite !andb_true_iff, !Nat.eqb_eq in Hall. tauto.
Qed.

Lemma families_partition_witness :
  count_occ Z.eq_dec (family_cols block_family) 400 = 1%nat.
Proof.
  apply (families_partition 400). unfold num_vars, n. lia.
Defined.

(** ** Solved grids and feasible points *)

Lemma row_of_table g r :
  grid9 g -> 0 <= r < 9 -> row_of g r = map (fun c => cell g r c) cols.
Proof.
  intros Hg Hr. destruct (row_of_in g r Hg Hr) as [_ Hl].
  apply (nth_ext _ _ 0 0); [now rewrite length_map|].
  intros j Hj. rewrite Hl in Hj.
  change cols with (map Z.of_nat (seq 0 9)).
  rewrite (nth_table (fun c => cell g r c)) by exact Hj.
  unfold cell, row_of. now rewrite Nat2Z.id.
Qed.

Lemma block_of_table g br bc :
  block_of g br bc =
  map (fun rc => cell g (fst rc) (snd rc)) (block_cells br bc).
Proof.
  unfold block_of, block_cells, block.
  induction (range2 br (br + 3)) as [|r l IH]; [reflexivity|].
  simpl. now rewrite map_app, map_map, IH.
Qed.

Lemma count_occ_one_to_nine v :
  1 <= v <= 9 -> count_occ Z.eq_dec one_to_nine v = 1%nat.
Proof.
  intros Hv.
  assert (Hin : In v [1; 2; 3; 4; 5; 6; 7; 8; 9]) by (simpl; lia).
  simpl in Hin.
  repeat (destruct Hin as [<-|Hin]; [reflexivity|]). contradiction.
Qed.

Lemma inject_Z_succ k :
  (inject_Z (Z.of_nat (S k)) == 1 + inject_Z (Z.of_nat k))%Q.
Proof.
  rewrite Nat2Z.inj_succ, <- Z.add_1_l, inject_Z_plus. reflexivity.
Qed.

(** The sum of the encoding of [g] over the variables of value [v] in the
    listed cells counts the cells that hold [v]. *)
Lemma lin_value_cells g v cells :
  1 <= v <= 9 ->
  Forall (fun rc => 0 <= fst rc < 9 /\ 0 <= snd rc < 9) cells ->
  (lin_value (assignment_of g)
     (map (fun rc => var_index (fst rc) (snd rc) v) cells) ==
   inject_Z (Z.of_nat
     (count_occ Z.eq_dec (map (fun rc => cell g (fst rc) (snd rc)) cells)
                v)))%Q.
Proof.
  intros Hv. induction 1 as [|[r c] cells [Hr Hc] _ IH].
  - reflexivity.
  - cbn [map fst snd] in *. rewrite lin_value_cons, IH.
    rewrite assignment_of_index by assumption.
    cbn [count_occ].
    destruct (Z.eq_dec (cell g r c) v) as [E|E].
    + rewrite E, Z.eqb_refl, inject_Z_succ. reflexivity.
    + apply Z.eqb_neq in E. rewrite E. ring.
Qed.

(** The same for the nine variables of one cell. *)
Lemma lin_value_candidates g r c vs :
  0 <= r < 9 -> 0 <= c < 9 -> Forall (fun v => 1 <= v <= 9) vs ->
  (lin_value (assignment_of g) (map (fun v => var_index r c v) vs) ==
   inject_Z (Z.of_nat (count_occ Z.eq_dec vs (cell g r c))))%Q.
Proof.
  intros Hr Hc. induction 1 as [|v vs Hv _ IH].
  - reflexivity.
  - cbn [map]. rewrite lin_value_cons, IH.
    rewrite assignment_of_index by assumption.
    cbn [count_occ].
    destruct (Z.eq_dec v (cell g r c)) as [E|E].
    + rewrite E, Z.eqb_refl, inject_Z_succ. reflexivity.
    + assert (E' : (cell g r c =? v) = false)
        by (apply Z.eqb_neq; congruence).
      rewrite E'. ring.
Qed.

Lemma solution_entries g :
  grid9 g -> sudoku_solution g -> entries (fun z => 1 <= z <= 9) g.
Proof.
  intros Hg (Hrows & _). apply cells_entries; [exact Hg|].
  intros r c Hr Hc. apply in_one_to_nine.
  apply (Permutation_in _ (Hrows r ltac:(apply in_range; unfold n; lia))).
  now apply cell_in_row.
Qed.

Lemma solution_satisfies_uniqueness g :
  grid9 g -> sudoku_solution g ->
  Forall (satisfies (assignment_of g)) uniqueness_rows.
Proof.
  intros Hg Hsol. pose proof (solution_entries g Hg Hsol) as He.
  destruct Hsol as (Hrows & Hcols & Hblocks).
  unfold uniqueness_rows. repeat rewrite Forall_app. repeat split.
  - unfold cell_family. rewrite Forall_flat_map, Forall_forall. intros r Hr.
    rewrite Forall_map, Forall_forall. intros c Hc.
    apply in_rows in Hr. apply in_cols in Hc.
    unfold satisfies. cbn [c_cols c_rhs].
    rewrite lin_value_candidates;
      [|assumption|assumption|apply Forall_forall; intros v; apply in_values].
    change values with one_to_nine.
    rewrite count_occ_one_to_nine; [reflexivity|].
    exact (entries_cell _ g r c Hg He Hr Hc).
  - unfold row_family. rewrite Forall_flat_map, Forall_forall. intros r Hr.
    rewrite Forall_map, Forall_forall. intros v Hv.
    apply in_rows in Hr. apply in_values in Hv.
    unfold satisfies. cbn [c_cols c_rhs].
    rewrite <- (map_map (fun c => (r, c))
                  (fun rc => var_index (fst rc) (snd rc) v)).
    rewrite lin_value_cells; [|exact Hv|].
    + rewrite map_map. cbn [fst snd]. rewrite <- (row_of_table g r Hg Hr).
      rewrite (proj1 (Permutation_count_occ Z.eq_dec _ _)
                 (Hrows r ltac:(apply in_range; unfold n; lia))).
      now rewrite count_occ_one_to_nine.
    + rewrite Forall_map, Forall_forall. intros c Hc. apply in_cols in Hc.
      simpl. tauto.
  - unfold col_family. rewrite Forall_flat_map, Forall_forall. intros c Hc.
    rewrite Forall_map, Forall_forall. intros v Hv.
    apply in_cols in Hc. apply in_values in Hv.
    unfold satisfies. cbn [c_cols c_rhs].
    rewrite <- (map_map (fun r => (r, c))
                  (fun rc => var_index (fst rc) (snd rc) v)).
    rewrite lin_value_cells; [|exact Hv|].
    + rewrite map_map. cbn [fst snd].
      change (map (fun r => cell g r c) rows) with (col_of g c).
      rewrite (proj1 (Permutation_count_occ Z.eq_dec _ _)
                 (Hcols c ltac:(apply in_range; unfold n; lia))).
      now rewrite count_occ_one_to_nine.
    + rewrite Forall_map, Forall_forall. intros r Hr. apply in_rows in Hr.
      simpl. tauto.
  - unfold block_family. rewrite Forall_flat_map, Forall_forall.
    intros br Hbr. rewrite Forall_flat_map, Forall_forall. intros bc Hbc.
    rewrite Forall_map, Forall_forall. intros v Hv. apply in_values in Hv.
    unfold satisfies. cbn [c_cols c_rhs].
    rewrite lin_value_cells; [|exact Hv|].
    + rewrite <- block_of_table.
      rewrite (proj1 (Permutation_count_occ Z.eq_dec _ _)
                 (Hblocks br bc Hbr Hbc)).
      now rewrite count_occ_one_to_nine.
    + apply Forall_forall. intros [r c] Hin. apply in_block_cells in Hin.
      apply in_origins in Hbr, Hbc. simpl. lia.
Qed.

Lemma extract_assignment_of g :
  grid9 g -> entries (fun z => 1 <= z <= 9) g ->
  extract handles (assignment_of g) = Ok g.
Proof.
  intros Hg He.
  destruct (extract_cells (assignment_of g)) as (g' & Hex & Hg' & Hcell).
  rewrite Hex. f_equal.
  rewrite (grid9_table g' Hg'), (grid9_table g Hg).
  apply table_ext. intros r c Hr Hc. rewrite Hcell by assumption.
  pose proof (entries_cell _ g r c Hg He Hr Hc) as Hv. cbv beta in Hv.
  apply (pick_unique (fun i => gt_half (assignment_of g i))); [exact Hv| |].
  - rewrite assignment_of_index, Z.eqb_refl by assumption. reflexivity.
  - intros v' Hv'. rewrite assignment_of_index by assumption.
    destruct (Z.eqb_spec (cell g r c) v') as [E|E]; [now symmetry|].
    discriminate.
Qed.

Lemma validate_sudoku_solution_example :
  sudoku_solution example_solution /\ validate_sudoku example_solution = true.
Proof.
  split; [|reflexivity].
  apply (validate_sudoku_solution example_solution grid9_example_solution);
    [|reflexivity].
  left. entries_by_cases.
Qed.

(** The encoding of a completion satisfies every row of the model. *)
Lemma completion_satisfies puzzle g :
  grid9 puzzle -> entries (fun z => 0 <= z <= 9) puzzle ->
  grid9 g -> sudoku_solution g ->
  (forall r c, 0 <= r < 9 -> 0 <= c < 9 -> cell puzzle r c <> 0 ->
     cell g r c = cell puzzle r c) ->
  Forall (satisfies (assignment_of g)) (uniqueness_rows ++ given_rows puzzle).
Proof.
  intros Hp Hpe Hg Hsol Hkeep. apply Forall_app.
  split; [now apply solution_satisfies_uniqueness|].
  unfold given_rows, given_indices.
  rewrite Forall_map, Forall_flat_map, Forall_forall. intros r Hr.
  rewrite Forall_flat_map, Forall_forall. intros c Hc.
  apply in_rows in Hr. apply in_cols in Hc. cbv zeta.
  destruct (cell puzzle r c =? 0) eqn:E; simpl; constructor; [|constructor].
  apply Z.eqb_neq in E.
  pose proof (entries_cell _ puzzle r c Hp Hpe Hr Hc) as Hv. cbv beta in Hv.
  unfold satisfies. cbn [c_cols c_rhs]. rewrite lin_value_cons.
  change (lin_value (assignment_of g) []) with 0%Q.
  rewrite assignment_of_index by lia.
  rewrite (Hkeep r c Hr Hc E), Z.eqb_refl. reflexivity.
Qed.

(** X6: the model has a feasible point whenever the puzzle has a
    completion. If the 9x9 grid [g] is a solution (rows, columns and
    blocks are permutations of 1..9) that keeps every given of the puzzle,
    then its 0/1 encoding satisfies every row the builder emitted, and
    the extraction reads [g] back from it. *)
Theorem solution_is_feasible (puzzle g : grid) :
  grid9 puzzle -> entries (fun z => 0 <= z <= 9) puzzle ->
  grid9 g -> sudoku_solution g ->
  (forall r c, 0 <= r < 9 -> 0 <= c < 9 -> cell puzzle r c <> 0 ->
     cell g r c = cell puzzle r c) ->
  exists x h, build puzzle = Ok (x, h) /\
    binary_point (assignment_of g) /\
    Forall (satisfies (assignment_of g)) (constrs h) /\
    extract x (assignment_of g) = Ok g.
Proof.
  intros Hp Hpe Hg Hsol Hkeep.
  exists handles, (Model num_vars (uniqueness_rows ++ given_rows puzzle)).
  split; [now apply build_ok|]. split; [apply assignment_of_binary|].
  split; [now apply completion_satisfies|].
  apply extract_assignment_of; [exact Hg|now apply solution_entries].
Qed.

Lemma solution_is_feasible_witness :
  exists x h, build example_puzzle = Ok (x, h) /\
    Forall (satisfies (assignment_of example_solution)) (constrs h).
Proof.
  destruct (solution_is_feasible example_puzzle example_solution)
    as (x & h & Hb & _ & Hsat & _).
  - exact grid9_example_puzzle.
  - entries_by_cases.
  - exact grid9_example_solution.
  - apply (proj1 validate_sudoku_solution_example).
  - intros r c Hr Hc.
    assert (Hr' : In r [0; 1; 2; 3; 4; 5; 6; 7; 8]) by (simpl; lia).
    assert (Hc' : In c [0; 1; 2; 3; 4; 5; 6; 7; 8]) by (simpl; lia).
    simpl in Hr', Hc'.
    repeat (destruct Hr' as [<-|Hr']; [|]); try contradiction;
      repeat (destruct Hc' as [<-|Hc']; [|]); try contradiction;
      vm_compute; intros H; first [reflexivity | now contradiction H].
  - exists x, h. split; [exact Hb|exact Hsat].
Defined.

(** X7: conversely every feasible 0/1 point is the encoding of the grid
    extracted from it: when a 0/1 point satisfies the 324 uniqueness rows,
    the extracted grid is a solution and the point is 1 exactly on the
    variables [idx(r, c, g[r][c])] of that grid. *)
Theorem feasible_point_is_encoding (val : Z -> Q) :
  binary_point val ->
  Forall (satisfies val) uniqueness_rows ->
  exists g, extract handles val = Ok g /\ grid9 g /\ sudoku_solution g /\
    forall i, 0 <= i < num_vars -> (val i == assignment_of g i)%Q.
Proof.
  intros Hbin Hu.
  destruct (feasible_extract val val Hbin (near_refl val) Hu)
    as (g & Hex & Hg & Hcells & Hsol).
  exists g. split; [exact Hex|]. split; [exact Hg|]. split; [exact Hsol|].
  intros i Hi. pose proof (var_index_coords i Hi) as Hc.
  unfold assignment_of. destruct (var_coords i) as [[r c] v].
  destruct Hc as (Hr & Hc & Hv & <-).
  destruct (Hcells r c Hr Hc) as [Hgv Hone].
  destruct (Z.eqb_spec (cell g r c) v) as [E|E].
  - now rewrite <- E.
  - destruct (Hbin (var_index r c v) Hi) as [H0|H1]; [exact H0|].
    exfalso. apply E.
    destruct (exactly_one_row_sum val Hbin Hu _ (in_cell_family r c Hr Hc))
      as [Hb01 Hs]; [index_in_range|].
    assert (Eq : var_index r c (cell g r c) = var_index r c v).
    { apply (exactly_one_unique val _ Hb01 Hs); trivial;
        apply in_map_iff; eexists; (split; [reflexivity|]);
        apply in_values; lia. }
    apply var_index_inj in Eq; lia.
Qed.

Lemma feasible_point_is_encoding_witness :
  exists g, extract handles (assignment_of example_solution) = Ok g /\
    sudoku_solution g.
Proof.
  destruct (feasible_point_is_encoding (assignment_of example_solution))
    as (g & Hex & _ & Hsol & _).
  - apply assignment_of_binary.
  - apply satisfiesb_all. vm_compute. reflexivity.
  - exists g. split; [exact Hex|exact Hsol].
Defined.

(** X8: a puzzle whose givens clash makes the model infeasible. If two
    different cells of the same row, column or block carry the same
    non-zero given, no 0/1 point satisfies all the rows the builder
    emitted. *)
Theorem clashing_givens_infeasible (puzzle : grid) (r1 c1 r2 c2 : Z)
    (val : Z -> Q) (x : list Z) (h : Highs) :
  grid9 puzzle -> entries (fun z => 0 <= z <= 9) puzzle ->
  0 <= r1 < 9 -> 0 <= c1 < 9 -> 0 <= r2 < 9 -> 0 <= c2 < 9 ->
  (r1, c1) <> (r2, c2) -> same_group r1 c1 r2 c2 ->
  cell puzzle r1 c1 <> 0 -> cell puzzle r2 c2 = cell puzzle r1 c1 ->
  binary_point val -> build puzzle = Ok (x, h) ->
  ~ Forall (satisfies val) (constrs h).
Proof.
  intros Hp Hpe Hr1 Hc1 Hr2 Hc2 Hne Hgroup Hnz Hsame Hbin Hb Hsat.
  rewrite (build_ok puzzle Hp Hpe) in Hb. injection Hb as <- <-.
  change (Forall (satisfies val) (uniqueness_rows ++ given_rows puzzle))
    in Hsat.
  apply Forall_app in Hsat. destruct Hsat as [Hu Hgiven].
  rewrite Forall_forall in Hgiven.
  pose proof (entries_cell _ puzzle r1 c1 Hp Hpe Hr1 Hc1) as Hv.
  cbv beta in Hv. set (v := cell puzzle r1 c1) in *.
  assert (H1 : (val (var_index r1 c1 v) == 1)%Q).
  { apply satisfies_single. now apply Hgiven, in_given_rows. }
  assert (H2 : (val (var_index r2 c2 v) == 1)%Q).
  { apply satisfies_single. rewrite <- Hsame.
    apply Hgiven, in_given_rows; trivial. now rewrite Hsame. }
  assert (Hv' : 1 <= v <= 9) by lia.
  assert (Hsum : forall cs, In (Constr cs 1) uniqueness_rows ->
            Forall (fun i => 0 <= i < num_vars) cs ->
            In (var_index r1 c1 v) cs -> In (var_index r2 c2 v) cs -> False).
  { intros cs Hin Hcs Hi Hj.
    destruct (exactly_one_row_sum val Hbin Hu cs Hin Hcs) as [Hb01 Hs].
    pose proof (exactly_one_unique val cs Hb01 Hs _ _ Hi Hj H1 H2) as E.
    apply var_index_inj in E; try lia.
    apply Hne. f_equal; lia. }
  destruct Hgroup as [Er|[Ec|[Ebr Ebc]]].
  - subst r2.
    apply (Hsum _ (in_row_family r1 v Hr1 Hv')); [index_in_range| |];
      apply in_map_iff; eexists; (split; [reflexivity|]); now apply in_cols.
  - subst c2.
    apply (Hsum _ (in_col_family c1 v Hc1 Hv')); [index_in_range| |];
      apply in_map_iff; eexists; (split; [reflexivity|]); now apply in_rows.
  - assert (Hbr : In (3 * (r1 / 3)) (range3 0 n block))
      by (apply in_origins; Z.div_mod_to_equations; lia).
    assert (Hbc : In (3 * (c1 / 3)) (range3 0 n block))
      by (apply in_origins; Z.div_mod_to_equations; lia).
    apply (Hsum _ (in_block_family _ _ v Hbr Hbc Hv')).
    + rewrite Forall_map, Forall_forall. intros [r c] Hin.
      apply in_block_cells in Hin. simpl.
      apply var_index_range; trivial; Z.div_mod_to_equations; lia.
    + apply (in_map (fun rc => var_index (fst rc) (snd rc) v) _ (r1, c1)).
      apply in_block_cells. Z.div_mod_to_equations. lia.
    + apply (in_map (fun rc => var_index (fst rc) (snd rc) v) _ (r2, c2)).
      apply in_block_cells. Z.div_mod_to_equations. lia.
Qed.

Lemma clashing_givens_infeasible_witness :
  ~ Forall (satisfies (assignment_of example_solution))
      (uniqueness_rows ++ given_rows puzzle_with_clash).
Proof.
  apply (clashing_givens_infeasible puzzle_with_clash 0 0 0 1
           (assignment_of example_solution) handles
           (Model num_vars (uniqueness_rows ++ given_rows puzzle_with_clash)));
    try lia.
  - grid9_by_cases.
  - entries_by_cases.
  - intros H. discriminate H.
  - left. reflexivity.
  - vm_compute. intros H. discriminate H.
  - reflexivity.
  - apply assignment_of_binary.
  - vm_compute. reflexivity.
Defined.

(** ** Printing a grid *)

Lemma cell_text_glyph val :
  0 <= val <= 9 -> cell_text val = String (glyph val) " "%string.
Proof.
  intros Hv.
  assert (Hin : In val [0; 1; 2; 3; 4; 5; 6; 7; 8; 9]) by (simpl; lia).
  simpl in Hin.
  repeat (destruct Hin as [<-|Hin]; [reflexivity|]). contradiction.
Qed.

Lemma read_glyph_glyph val : 0 <= val <= 9 -> read_glyph (glyph val) = val.
Proof.
  intros Hv.
  assert (Hin : In val [0; 1; 2; 3; 4; 5; 6; 7; 8; 9]) by (simpl; lia).
  simpl in Hin.
  repeat (destruct Hin as [<-|Hin]; [reflexivity|]). contradiction.
Qed.

(** A row of one-character cells: each cell followed by a space, and a bar
    and a space after the third and the sixth cell. *)
Lemma row_line_glyphs (f : Z -> Z) :
  (forall c, 0 <= c < 9 -> 0 <= f c <= 9) ->
  row_line f =
  string_of_list_ascii
    (flat_map (fun c =>
       glyph (f c) :: " "%char ::
       (if ((c + 1) mod 3 =? 0) && (c <? 8) then ["|"%char; " "%char]
        else [])) (range 9)).
Proof.
  intros Hf. unfold row_line.
  change (range 9) with [0; 1; 2; 3; 4; 5; 6; 7; 8].
  cbn [fold_left flat_map]. cbv zeta.
  rewrite !cell_text_glyph by (apply Hf; lia).
  reflexivity.
Qed.

Lemma read_row_line (f : Z -> Z) :
  (forall c, 0 <= c < 9 -> 0 <= f c <= 9) ->
  read_row (row_line f) = map f (range 9).
Proof.
  intros Hf. rewrite (row_line_glyphs f Hf).
  change (range 9) with [0; 1; 2; 3; 4; 5; 6; 7; 8].
  unfold read_row. cbn [map flat_map].
  change ((0 + 1) mod 3 =? 0) with false. change ((1 + 1) mod 3 =? 0) with false.
  change ((2 + 1) mod 3 =? 0) with true. change ((3 + 1) mod 3 =? 0) with false.
  change ((4 + 1) mod 3 =? 0) with false. change ((5 + 1) mod 3 =? 0) with true.
  change ((6 + 1) mod 3 =? 0) with false. change ((7 + 1) mod 3 =? 0) with false.
  change ((8 + 1) mod 3 =? 0) with true.
  change (2 <? 8) with true. change (5 <? 8) with true.
  change (8 <? 8) with false.
  cbn [andb app string_of_list_ascii String.get].
  rewrite !read_glyph_glyph by (apply Hf; lia). reflexivity.
Qed.

Lemma print_sudoku_lines (puzzle : grid) (title : string) :
  print_sudoku puzzle title =
    [append newline (append title (append ":"%string newline));
     row_text puzzle 0; row_text puzzle 1; row_text puzzle 2;
     str_mul "-"%string 21;
     row_text puzzle 3; row_text puzzle 4; row_text puzzle 5;
     str_mul "-"%string 21;
     row_text puzzle 6; row_text puzzle 7; row_text puzzle 8;
     EmptyString].
Proof. reflexivity. Qed.



(** X10: printing loses nothing on a 9x9 grid with entries in 0..9: the
    grid is read back from the printed rows, so two such grids that print
    the same are equal. *)
Theorem print_sudoku_round_trip (g : grid) (title : string) :
  grid9 g -> entries (fun z => 0 <= z <= 9) g ->
  read_grid (print_sudoku g title) = g /\
  (forall g' title', grid9 g' -> entries (fun z => 0 <= z <= 9) g' ->
     print_sudoku g' title' = print_sudoku g title -> g' = g).
Proof.
  assert (Hread : forall g0 title0, grid9 g0 ->
            entries (fun z => 0 <= z <= 9) g0 ->
            read_grid (print_sudoku g0 title0) = g0).
  { intros g0 title0 Hg He.
    assert (Hrow : forall r, 0 <= r < 9 ->
              read_row (row_text g0 r) = map (fun c => cell g0 r c) cols).
    { intros r Hr. unfold row_text. apply read_row_line.
      intros c Hc. exact (entries_cell _ g0 r c Hg He Hr Hc). }
    rewrite (print_sudoku_lines g0 title0).
    unfold read_grid. cbn [map nth].
    rewrite !Hrow by lia. symmetry. apply (grid9_table g0 Hg). }
  intros Hg He. split; [now apply Hread|].
  intros g' title' Hg' He' Hsame.
  rewrite <- (Hread g' title' Hg' He'), Hsame. now apply Hread.
Qed.

Lemma print_sudoku_round_trip_witness :
  read_grid (print_sudoku example_puzzle "Original Puzzle"%string) =
  example_puzzle.
Proof.
  apply (print_sudoku_round_trip example_puzzle "Original Puzzle"%string).
  - exact grid9_example_puzzle.
  - exact entries_example_puzzle.
Defined.

(** ** The main block *)

Lemma build_example : build example_puzzle = Ok (handles, example_model).
Proof. exact (build_ok example_puzzle grid9_example_puzzle entries_example_puzzle). Qed.

Lemma solve_sudoku_stdout_built run show puzzle h :
  build puzzle = Ok (handles, h) ->
  solve_sudoku_stdout run show puzzle =
  if negb (is_optimal (fst (run h))) then
    [append "No solution found. Solver status: "%string (show (fst (run h)))]
  else [].
Proof.
  intros Hb. unfold solve_sudoku_stdout. rewrite Hb.
  now destruct (run h) as [status val].
Qed.



(** ** The validator on arbitrary integers *)

(** X12: on any 9x9 grid of integers, bounded or not, [validate_sudoku]
    answers true exactly when each row, each column and each block has no
    repeated entry and sums to 45; in particular it never accepts a grid
    with a repeated value in a row, a column or a block. *)
Theorem validate_sudoku_groups (g : grid) :
  grid9 g -> (validate_sudoku g = true <-> groups_checked g).
Proof.
  intros Hg. rewrite validate_sudoku_true. unfold groups_checked.
  assert (Hrow : forall r, In r (range n) ->
            bad_group (row_of g r) = false <->
            NoDup (row_of g r) /\ sum (row_of g r) = 45).
  { intros r Hr. apply bad_group_false. apply in_range in Hr.
    unfold n in Hr. now apply row_of_in. }
  assert (Hcol : forall c, bad_group (col_of g c) = false <->
            NoDup (col_of g c) /\ sum (col_of g c) = 45).
  { intros c. apply bad_group_false, length_col_of. }
  assert (Hblk : forall br bc, In br (range3 0 n 3) -> In bc (range3 0 n 3) ->
            bad_group (block_of g br bc) = false <->
            NoDup (block_of g br bc) /\ sum (block_of g br bc) = 45).
  { intros br bc Hbr Hbc. now apply bad_group_false, length_block_of. }
  split; intros (H1 & H2 & H3); (split; [|split]).
  - intros r Hr. apply (Hrow r Hr). exact (H1 r Hr).
  - intros c Hc. apply Hcol. exact (H2 c Hc).
  - intros br bc Hbr Hbc. apply (Hblk br bc Hbr Hbc).
    exact (H3 br bc Hbr Hbc).
  - intros r Hr. apply (Hrow r Hr). exact (H1 r Hr).
  - intros c Hc. apply Hcol. exact (H2 c Hc).
  - intros br bc Hbr Hbc. apply (Hblk br bc Hbr Hbc).
    exact (H3 br bc Hbr Hbc).
Qed.

Lemma validate_sudoku_groups_witness :
  groups_checked disguised_grid.
Proof.
  apply (validate_sudoku_groups disguised_grid grid9_disguised).
  reflexivity.
Defined.

(** ** Noise in the returned values *)

Lemma extract_agree val val' :
  (forall i, 0 <= i < num_vars -> gt_half (val i) = gt_half (val' i)) ->
  extract handles val = extract handles val'.
Proof.
  intros Hsame.
  destruct (extract_cells val) as (g & Hex & Hg & Hcell).
  destruct (extract_cells val') as (g' & Hex' & Hg' & Hcell').
  rewrite Hex, Hex'. f_equal.
  rewrite (grid9_table g Hg), (grid9_table g' Hg').
  apply table_ext. intros r c Hr Hc.
  rewrite Hcell, Hcell' by assumption. now apply pick_ext.
Qed.

(** X13: the threshold absorbs noise: values that stay within 1/2 of a
    0/1 point extract to the same grid as the point itself, whether or
    not the point is feasible. *)
Theorem extract_tolerates_noise (a val : Z -> Q) :
  binary_point a -> near val a ->
  extract handles val = extract handles a.
Proof.
  intros Hbin Hnear. apply extract_agree. intros i Hi.
  apply gt_half_near; [now apply Hnear|now apply Hbin].
Qed.

Lemma extract_tolerates_noise_witness :
  extract handles (noisy (assignment_of example_solution)) =
  extract handles (assignment_of example_solution).
Proof.
  apply extract_tolerates_noise.
  - apply assignment_of_binary.
  - apply noisy_near, assignment_of_binary.
Defined.

(** ** Correctness relative to the solver *)

(** The builder's result on a puzzle with entries in 0..9, read off an
    equation. *)
Lemma build_ok_inv puzzle x h :
  grid9 puzzle -> entries (fun z => 0 <= z <= 9) puzzle ->
  build puzzle = Ok (x, h) ->
  x = handles /\
  h = Model num_vars (uniqueness_rows ++ given_rows puzzle).
Proof.
  intros Hp Hpe Hb. rewrite (build_ok puzzle Hp Hpe) in Hb.
  split.
  - exact (f_equal (fun res => match res with
                               | Ok (x', _) => x'
                               | IndexError => x
                               end) (eq_sym Hb)).
  - exact (f_equal (fun res => match res with
                               | Ok (_, h') => h'
                               | IndexError => h
                               end) (eq_sym Hb)).
Qed.

(** Values near a point that satisfies the whole model extract to a
    completion of the puzzle. *)
Lemma near_feasible_completion puzzle a val :
  grid9 puzzle -> entries (fun z => 0 <= z <= 9) puzzle ->
  binary_point a -> near val a ->
  Forall (satisfies a) (uniqueness_rows ++ given_rows puzzle) ->
  exists g, extract handles val = Ok g /\ completion puzzle g.
Proof.
  intros Hp Hpe Hbin Hnear Hsat. apply Forall_app in Hsat.
  destruct Hsat as [Hu Hgiven].
  destruct (feasible_extract a val Hbin Hnear Hu)
    as (g & Hex & Hg & Hcells & Hsol).
  exists g. split; [exact Hex|]. split; [exact Hg|]. split; [exact Hsol|].
  intros r c Hr Hc Hnz.
  pose proof (entries_cell _ puzzle r c Hp Hpe Hr Hc) as Hpv.
  cbv beta in Hpv.
  destruct (Hcells r c Hr Hc) as [Hv Hone].
  rewrite Forall_forall in Hgiven.
  pose proof (satisfies_single _ _
                (Hgiven _ (in_given_rows puzzle r c Hr Hc Hnz))) as Hfix.
  destruct (exactly_one_row_sum a Hbin Hu _ (in_cell_family r c Hr Hc))
    as [Hb01 Hs]; [index_in_range|].
  assert (E : var_index r c (cell g r c) = var_index r c (cell puzzle r c)).
  { apply (exactly_one_unique a _ Hb01 Hs); trivial;
      apply in_map_iff; eexists; (split; [reflexivity|]);
      apply in_values; lia. }
  apply var_index_inj in E; lia.
Qed.

(** X14: with a solver that is sound on the model built for a 9x9 puzzle
    with entries in 0..9, [solve_sudoku] returns either [None] or a grid
    that completes the puzzle (rows, columns and blocks are permutations
    of 1..9 and every given is kept) and that [validate_sudoku] accepts. *)
Theorem solve_sudoku_sound
    (run : Highs -> HighsModelStatus * (Z -> Q)) (puzzle : grid)
    (x : list Z) (h : Highs) :
  grid9 puzzle -> entries (fun z => 0 <= z <= 9) puzzle ->
  build puzzle = Ok (x, h) -> sound_on run h ->
  solve_sudoku run puzzle = Ok None \/
  exists g, solve_sudoku run puzzle = Ok (Some g) /\
    completion puzzle g /\ validate_sudoku g = true.
Proof.
  intros Hp Hpe Hb Hsound.
  destruct (build_ok_inv puzzle x h Hp Hpe Hb) as [-> Hh].
  assert (Hsat' : forall a, Forall (satisfies a) (constrs h) ->
            Forall (satisfies a) (uniqueness_rows ++ given_rows puzzle))
    by (intros a Ha; now rewrite Hh in Ha).
  clear Hh.
  pose proof (solve_sudoku_built run puzzle h Hb) as Hsolve.
  destruct (is_optimal (fst (run h))) eqn:Eopt;
    [|left; rewrite Hsolve; reflexivity].
  right.
  assert (Es : fst (run h) = kOptimal)
    by (destruct (fst (run h)); first [reflexivity | discriminate Eopt]).
  destruct (Hsound Es) as (a & Hbin & Hsat & Hnear).
  destruct (near_feasible_completion puzzle a _ Hp Hpe Hbin Hnear
              (Hsat' a Hsat)) as (g & Hex & Hcomp).
  exists g. rewrite Hex in Hsolve.
  split; [rewrite Hsolve; reflexivity|]. split; [exact Hcomp|].
  destruct Hcomp as (Hg & Hsol & _). now apply solution_validates.
Qed.

Lemma solve_sudoku_sound_witness :
  solve_sudoku (fun _ => (kOptimal, noisy (assignment_of example_solution)))
    example_puzzle = Ok None \/
  exists g,
    solve_sudoku (fun _ => (kOptimal, noisy (assignment_of example_solution)))
      example_puzzle = Ok (Some g) /\
    completion example_puzzle g /\ validate_sudoku g = true.
Proof.
  apply (solve_sudoku_sound _ example_puzzle handles example_model).
  - exact grid9_example_puzzle.
  - exact entries_example_puzzle.
  - exact build_example.
  - intros _. exists (assignment_of example_solution).
    split; [apply assignment_of_binary|]. split.
    + apply satisfiesb_all. vm_compute. reflexivity.
    + apply noisy_near, assignment_of_binary.
Defined.

(** X15: with a solver that is sound and complete on the model built for
    a 9x9 puzzle with entries in 0..9, [solve_sudoku] returns a grid
    exactly when the puzzle has a completion, and [None] exactly when it
    has none. *)
Theorem solve_sudoku_decides
    (run : Highs -> HighsModelStatus * (Z -> Q)) (puzzle : grid)
    (x : list Z) (h : Highs) :
  grid9 puzzle -> entries (fun z => 0 <= z <= 9) puzzle ->
  build puzzle = Ok (x, h) -> sound_on run h -> complete_on run h ->
  ((exists g, completion puzzle g) <->
   (exists g, solve_sudoku run puzzle = Ok (Some g))) /\
  (~ (exists g, completion puzzle g) <-> solve_sudoku run puzzle = Ok None).
Proof.
  intros Hp Hpe Hb Hsound Hcomplete.
  destruct (build_ok_inv puzzle x h Hp Hpe Hb) as [-> Hh].
  assert (Hsat' : forall a, Forall (satisfies a) (constrs h) <->
            Forall (satisfies a) (uniqueness_rows ++ given_rows puzzle))
    by (intros a; now rewrite Hh).
  clear Hh.
  pose proof (solve_sudoku_built run puzzle h Hb) as Hsolve.
  destruct (extract_cells (snd (run h))) as (g0 & Hex0 & _).
  rewrite Hex0 in Hsolve.
  assert (Hopt : (exists g, completion puzzle g) -> fst (run h) = kOptimal).
  { intros (g & Hg & Hsol & Hkeep). apply Hcomplete.
    exists (assignment_of g). split; [apply assignment_of_binary|].
    apply Hsat'. now apply completion_satisfies. }
  assert (Hback : fst (run h) = kOptimal -> completion puzzle g0).
  { intros Es. destruct (Hsound Es) as (a & Hbin & Hsat & Hnear).
    destruct (near_feasible_completion puzzle a _ Hp Hpe Hbin Hnear
                (proj1 (Hsat' a) Hsat)) as (g & Hex & Hcomp).
    rewrite Hex in Hex0. now injection Hex0 as <-. }
  destruct (is_optimal (fst (run h))) eqn:Eopt;
    [change (negb true) with false in Hsolve
    |change (negb false) with true in Hsolve];
    cbv iota in Hsolve; rewrite Hsolve.
  - assert (Es : fst (run h) = kOptimal)
      by (destruct (fst (run h)); first [reflexivity | discriminate Eopt]).
    split; split.
    + intros _. now exists g0.
    + intros _. exists g0. now apply Hback.
    + intros Hno. exfalso. apply Hno. exists g0. now apply Hback.
    + intros H. discriminate H.
  - assert (Hno : ~ (exists g, completion puzzle g)).
    { intros Hc. rewrite (Hopt Hc) in Eopt. discriminate Eopt. }
    split; split.
    + intros Hc. now contradiction Hno.
    + intros (g & H). discriminate H.
    + reflexivity.
    + intros _. exact Hno.
Qed.

Lemma solve_sudoku_decides_witness :
  ~ (exists g, completion puzzle_with_clash g) <->
  solve_sudoku (fun _ => (kInfeasible, fun _ => 0%Q)) puzzle_with_clash =
  Ok None.
Proof.
  refine (proj2 (solve_sudoku_decides (fun _ => (kInfeasible, fun _ => 0%Q))
                   puzzle_with_clash handles
                   (Model num_vars
                      (uniqueness_rows ++ given_rows puzzle_with_clash))
                   _ _ _ _ _)).
  - grid9_by_cases.
  - entries_by_cases.
  - vm_compute. reflexivity.
  - intros H. discriminate H.
  - intros (a & Hbin & Hsat). exfalso.
    apply Forall_app in Hsat. destruct Hsat as [Hu Hgiven].
    rewrite Forall_forall in Hgiven.
    assert (H1 : (a (var_index 0 0 5) == 1)%Q).
    { apply satisfies_single, Hgiven. vm_compute. tauto. }
    assert (H2 : (a (var_index 0 1 5) == 1)%Q).
    { apply satisfies_single, Hgiven. vm_compute. tauto. }
    destruct (exactly_one_row_sum a Hbin Hu _
                (in_row_family 0 5 ltac:(lia) ltac:(lia)))
      as [Hb01 Hs]; [index_in_range|].
    assert (E : var_index 0 0 5 = var_index 0 1 5).
    { apply (exactly_one_unique a _ Hb01 Hs); trivial;
        apply in_map_iff; eexists; (split; [reflexivity|]);
        apply in_cols; lia. }
    discriminate E.
Defined.
